(** * little-parser-lib: tokenizer, token stream and parser combinators

    A shallow embedding of the TypeScript sources

      - [src/tokenizer/types.ts], [src/tokenizer/Tokenizer.ts],
        [src/tokenizer/TokenStream.ts]
      - [src/parsers/types.ts], [src/parsers/ParserError.ts],
        [src/parsers/parsers.ts], [src/parsers/combinators.ts],
        [src/parsers/runners.ts]

    Conventions of the embedding.

      - A JavaScript string is a [string]; [input.split('')] is its list of
        characters ([ascii]), so inputs are restricted to code units below 256.
      - Numbers that index the token array or count lines and columns are
        [nat]; the constant [-1] of [or] lives in [Z].  Numbers and arrays
        are unbounded: the precision of a JavaScript number and the largest
        array length are not modelled.
      - The [TokenStream] object is mutated in place by its methods; here every
        method takes the stream and returns the stream after the call.
      - A JavaScript [throw] (explicit, or the [TypeError] of reading a
        property of [null]/[undefined]) is the [Throw] outcome; the
        [while (true)] loop of [many] runs on fuel and [OutOfFuel] is the
        outcome of a run that needs more iterations than it was given.
      - [null] as a parser's return value (what [or()] returns) is the
        constructor [Null] of [ParserResult]; [null] as a successful value
        ([optional], [endOfInput]) is [None] resp. [tt]. *)

From Stdlib Require Import List String Ascii Arith ZArith Lia Bool.
From Stdlib Require Import DecimalString.
Import ListNotations.
Open Scope string_scope.
Open Scope list_scope.
Open Scope nat_scope.

Set Implicit Arguments.

(* ================================================================== *)
(** ** tokenizer/types.ts *)

Definition TokenType := string.

Definition end_of_input : TokenType := "end_of_input".

Module TokenPosition.
Record t := mk { line : nat; column : nat }.
End TokenPosition.

Module Token.
Record t := mk { value : string; type : TokenType; position : TokenPosition.t }.
End Token.

(** [types.includes(x)] on an array of strings. *)
Definition includes (types : list TokenType) (x : TokenType) : bool :=
  existsb (String.eqb x) types.

(** [types.join(sep)]. *)
Definition join (sep : string) (xs : list string) : string :=
  String.concat sep xs.

(** Template-literal interpolation of a number. *)
Definition show_nat (n : nat) : string :=
  NilEmpty.string_of_uint (Nat.to_uint n).

(** A one-character JavaScript string. *)
Definition str_of_char (c : ascii) : string := String c EmptyString.

(* ================================================================== *)
(** ** Thrown values *)

(** [ParserErrorPosition] of parsers/ParserError.ts: source line and column,
    and the position in the token stream. *)
Module ParserErrorPosition.
Record t := mk { line : nat; column : nat; position : nat }.
End ParserErrorPosition.

Inductive Exn : Type :=
| Error (message : string)
| TypeError (message : string)
| ParserError (message : string) (location : ParserErrorPosition.t).

(* ================================================================== *)
(** ** tokenizer/Tokenizer.ts *)

(** A [RegExp] object.  Its identity [ref] is what a [Map] compares keys by;
    [test] is [matcher.test(char)] on one-character strings (the expressions
    used carry no [g] or [y] flag, so [test] has no state). *)
Record RegExp := mkRegExp { ref : nat; test : ascii -> bool }.

Definition in_range (lo hi : nat) (c : ascii) : bool :=
  (lo <=? nat_of_ascii c) && (nat_of_ascii c <=? hi).

(** [/[a-zA-Z]/] *)
Definition LetterRegex : RegExp :=
  mkRegExp 0 (fun c => in_range 97 122 c || in_range 65 90 c).
(** [/[0-9]/] *)
Definition DigitRegex : RegExp :=
  mkRegExp 1 (fun c => in_range 48 57 c).
(** [/\s+/], on the code units below 256 *)
Definition WhitespaceRegex : RegExp :=
  mkRegExp 2 (fun c => in_range 9 13 c || (nat_of_ascii c =? 32)
                       || (nat_of_ascii c =? 160)).
(** [/\n/] *)
Definition NewLineRegex : RegExp :=
  mkRegExp 3 (fun c => nat_of_ascii c =? 10).

Inductive Matcher : Type :=
| MString (s : string)
| MRegExp (r : RegExp).

(** Key equality of [Map<string | RegExp, TokenType>]: strings by content,
    objects by identity. *)
Definition same_key (a b : Matcher) : bool :=
  match a, b with
  | MString x, MString y => String.eqb x y
  | MRegExp x, MRegExp y => ref x =? ref y
  | _, _ => false
  end.

(** [Map.prototype.set] on the entries in insertion order: an existing key
    keeps its place and gets the new value, a new key goes last. *)
Fixpoint map_set (entries : list (Matcher * TokenType))
         (key : Matcher) (v : TokenType) : list (Matcher * TokenType) :=
  match entries with
  | [] => [(key, v)]
  | (k, w) :: rest =>
      if same_key k key then (k, v) :: rest else (k, w) :: map_set rest key v
  end.

Module Tokenizer.

Record t := mk {
  tokenTypeMatchers : list (Matcher * TokenType);
  newLineTokenType : option TokenType
}.

(** [new Tokenizer()] *)
Definition new : t := mk [] None.

Definition withTokenType (matcher : Matcher) (type : TokenType) (this : t) : t :=
  mk (map_set (tokenTypeMatchers this) matcher type) (newLineTokenType this).

(** How one run of the body of
    [for (const [matcher, type] of this.tokenTypeMatchers)] ends. *)
Inductive Step : Type :=
| Break (tokens : list Token.t)   (* a token was pushed, then [break] *)
| Thrown (e : Exn)                (* [throw new Error(...)] *)
| Next.                           (* the end of the body was reached *)

(** The loop body for one entry: the two [if]s, then the [throw], which is
    the last statement inside the loop. *)
Definition body (matcher : Matcher) (type : TokenType) (char : ascii)
           (position : TokenPosition.t) (tokens : list Token.t) : Step :=
  if match matcher with
     | MString s => String.eqb (str_of_char char) s
     | MRegExp _ => false
     end
  then Break (tokens ++ [Token.mk (str_of_char char) type position])
  else
    if match matcher with
       | MString _ => false
       | MRegExp r => test r char
       end
    then Break (tokens ++ [Token.mk (str_of_char char) type position])
    else Thrown (Error ("No token type matched for character: "
                          ++ str_of_char char)%string).

(** The loop over the entries, for one character. *)
Fixpoint match_char (entries : list (Matcher * TokenType)) (char : ascii)
         (position : TokenPosition.t) (tokens : list Token.t)
  : Exn + list Token.t :=
  match entries with
  | [] => inr tokens
  | (matcher, type) :: rest =>
      match body matcher type char position tokens with
      | Break tokens => inr tokens
      | Thrown e => inl e
      | Next => match_char rest char position tokens
      end
  end.

(** [input.split('').reduce(..., [])] with the shared [position] object
    threaded as an argument. *)
Fixpoint reduce (this : t) (chars : list ascii)
         (position : TokenPosition.t) (tokens : list Token.t)
  : Exn + list Token.t :=
  match chars with
  | [] => inr tokens
  | char :: rest =>
      (* position.column += 1; *)
      let position :=
        TokenPosition.mk (TokenPosition.line position)
                         (TokenPosition.column position + 1) in
      match match_char (tokenTypeMatchers this) char position tokens with
      | inl e => inl e
      | inr tokens => reduce this rest position tokens
      end
  end.

Definition tokenize (this : t) (input : string) : Exn + list Token.t :=
  reduce this (list_ascii_of_string input) (TokenPosition.mk 1 1) [].

End Tokenizer.

(* ================================================================== *)
(** ** tokenizer/TokenStream.ts *)

Module TokenStream.

(** [positionStack] is kept with its top (the last pushed element) first. *)
Record t := mk {
  tokens : list Token.t;
  position : nat;
  positionStack : list nat
}.

(** [new TokenStream(tokens)] *)
Definition new (tokens : list Token.t) : t := mk tokens 0 [].

Definition peek (this : t) : option Token.t :=
  nth_error (tokens this) (position this).

(** [this.tokens[this.position++] || null] *)
Definition consume (this : t) : option Token.t * t :=
  (nth_error (tokens this) (position this),
   mk (tokens this) (position this + 1) (positionStack this)).

Definition consumeIf (types : list TokenType) (this : t) : option Token.t * t :=
  match peek this with
  | Some token =>
      if includes types (Token.type token) then consume this else (None, this)
  | None => (None, this)
  end.

Definition storePosition (this : t) : t :=
  mk (tokens this) (position this) (position this :: positionStack this).

Definition clearPosition (this : t) : t :=
  mk (tokens this) (position this) (tl (positionStack this)).

Definition restorePosition (this : t) : t :=
  match positionStack this with
  | pos :: rest => mk (tokens this) pos rest
  | [] => this
  end.

Definition peekRemainder (this : t) : string :=
  join "" (List.map Token.value (skipn (position this) (tokens this))).

(** [this.peek() || this.tokens[this.tokens.length - 1]], then the spread of
    [tokenToUse.position]; with no token at all [tokenToUse] is [undefined]
    and reading its [position] throws. *)
Definition getPositionForError (this : t) : Exn + ParserErrorPosition.t :=
  let tokenToUse :=
    match peek this with
    | Some token => Some token
    | None => nth_error (tokens this) (List.length (tokens this) - 1)
    end in
  match tokenToUse with
  | Some token =>
      inr (ParserErrorPosition.mk
             (TokenPosition.line (Token.position token))
             (TokenPosition.column (Token.position token))
             (position this))
  | None =>
      inl (TypeError "Cannot read properties of undefined (reading 'position')")
  end.

End TokenStream.

(* ================================================================== *)
(** ** parsers/types.ts *)

(** What a parse function hands back: [{ result }], [{ errorMessage,
    position }], or the [null] that [or] returns when it was given no parser.
    Values of [T] are defined values: [{ result: undefined }] is outside the
    model. *)
Inductive ParserResult (T : Type) : Type :=
| Successful (result : T)
| Failed (errorMessage : string) (position : ParserErrorPosition.t)
| Null.

Arguments Failed {T} errorMessage position.
Arguments Null {T}.

(** How a call ends: it returns [a] leaving the stream as [s], it throws [e]
    leaving the stream as [s], or a loop in it was still running when its fuel
    ran out. *)
Inductive Outcome (A : Type) : Type :=
| Ret (a : A) (s : TokenStream.t)
| Throw (e : Exn) (s : TokenStream.t)
| OutOfFuel.

Arguments Throw {A} e s.
Arguments OutOfFuel {A}.

Definition bind {A B : Type} (m : Outcome A)
           (k : A -> TokenStream.t -> Outcome B) : Outcome B :=
  match m with
  | Ret a s => k a s
  | Throw e s => Throw e s
  | OutOfFuel => OutOfFuel
  end.

Notation "'let*' ( x , s ) ':=' m 'in' k" :=
  (bind m (fun x s => k))
  (at level 10, x name, s name, m at level 100, k at level 200).

Definition ParseFn (T : Type) : Type :=
  TokenStream.t -> Outcome (ParserResult T).

(** Reading [field] of [null]. *)
Definition null_read (field : string) : Exn :=
  TypeError ("Cannot read properties of null (reading '" ++ field ++ "')")%string.

(** The two type guards; on [null] the property read throws.  Where a
    combinator goes on to read [result.result] or [result.errorMessage], the
    embedding matches on the result instead: [Successful] is the branch
    where [isSuccessfulResult] holds, [Failed] the one where [isFailedResult]
    holds, [Null] the one where the guard throws. *)
Definition isSuccessfulResult {T : Type} (result : ParserResult T) : Exn + bool :=
  match result with
  | Successful _ => inr true
  | Failed _ _ => inr false
  | Null => inl (null_read "result")
  end.

Definition isFailedResult {T : Type} (result : ParserResult T) : Exn + bool :=
  match result with
  | Successful _ => inr false
  | Failed _ _ => inr true
  | Null => inl (null_read "errorMessage")
  end.

(* ================================================================== *)
(** ** parsers/ParserError.ts *)

(** [new ParserError(message, location)] *)
Definition new_ParserError (message : string) (location : ParserErrorPosition.t)
  : Exn :=
  ParserError
    ("Parser Error [" ++ show_nat (ParserErrorPosition.line location) ++ ":"
       ++ show_nat (ParserErrorPosition.column location) ++ "]: "
       ++ message)%string
    location.

(* ================================================================== *)
(** ** parsers/parsers.ts *)

(** [token?.type || 'end of input'] *)
Definition type_or_end (token : option Token.t) : string :=
  match token with
  | Some token =>
      if String.eqb (Token.type token) "" then "end of input"
      else Token.type token
  | None => "end of input"
  end.

(** [return { errorMessage, position: tokenStream.getPositionForError() }] *)
Definition failed_here {T : Type} (errorMessage : string)
           (tokenStream : TokenStream.t) : Outcome (ParserResult T) :=
  match TokenStream.getPositionForError tokenStream with
  | inl e => Throw e tokenStream
  | inr position => Ret (Failed errorMessage position) tokenStream
  end.

Definition anyExcept (types : list TokenType) : ParseFn Token.t :=
  fun tokenStream =>
    let (token, tokenStream) := TokenStream.consume tokenStream in
    match token with
    | Some tok =>
        if includes types (Token.type tok)
        then failed_here
               ("Expected any token not of type " ++ join ", " types
                  ++ ", but got " ++ type_or_end token)%string tokenStream
        else Ret (Successful tok) tokenStream
    | None =>
        failed_here
          ("Expected any token not of type " ++ join ", " types
             ++ ", but got " ++ type_or_end token)%string tokenStream
    end.

Definition anyOf (types : list TokenType) : ParseFn Token.t :=
  fun tokenStream =>
    let (token, tokenStream) := TokenStream.consume tokenStream in
    match token with
    | Some tok =>
        if negb (includes types (Token.type tok))
        then failed_here
               ("Expected token of type " ++ join ", " types
                  ++ ", but got " ++ type_or_end token)%string tokenStream
        else Ret (Successful tok) tokenStream
    | None =>
        failed_here
          ("Expected token of type " ++ join ", " types
             ++ ", but got " ++ type_or_end token)%string tokenStream
    end.

Definition endOfInput : ParseFn unit :=
  fun tokenStream =>
    let (token, tokenStream) := TokenStream.consume tokenStream in
    match token with
    | Some tok =>
        if negb (String.eqb (Token.type tok) end_of_input)
        then failed_here
               ("Expected end of input, but got token of type "
                  ++ Token.type tok)%string tokenStream
        else Ret (Successful tt) tokenStream
    | None => Ret (Successful tt) tokenStream
    end.

(* ================================================================== *)
(** ** parsers/combinators.ts *)

Module Combinators.

(** [and], for parsers of one result type (the source's tuple of per-parser
    types is a list here). *)
Fixpoint and_loop {T : Type} (parsers : list (ParseFn T)) (results : list T)
         (tokenStream : TokenStream.t) : Outcome (ParserResult (list T)) :=
  match parsers with
  | [] => Ret (Successful results) tokenStream
  | parser :: rest =>
      let* (parseResult, tokenStream) := parser tokenStream in
      match parseResult with
      | Failed errorMessage position =>
          Ret (Failed errorMessage position) tokenStream
      | Successful r => and_loop rest (results ++ [r]) tokenStream
      | Null => Throw (null_read "errorMessage") tokenStream
      end
  end.

Definition and {T : Type} (parsers : list (ParseFn T)) : ParseFn (list T) :=
  fun tokenStream => and_loop parsers [] tokenStream.

Definition attempt {T : Type} (parser : ParseFn T) : ParseFn T :=
  fun tokenStream =>
    let tokenStream := TokenStream.storePosition tokenStream in
    let* (result, tokenStream) := parser tokenStream in
    match isSuccessfulResult result with
    | inl e => Throw e tokenStream
    | inr true => Ret result (TokenStream.clearPosition tokenStream)
    | inr false => Ret result (TokenStream.restorePosition tokenStream)
    end.

Definition optional {T : Type} (parser : ParseFn T) (shouldBacktrack : bool)
  : ParseFn (option T) :=
  fun tokenStream =>
    let parseFn := if shouldBacktrack then attempt parser else parser in
    let* (result, tokenStream) := parseFn tokenStream in
    match result with
    | Successful r => Ret (Successful (Some r)) tokenStream
    | Failed _ _ => Ret (Successful None) tokenStream
    | Null => Throw (null_read "result") tokenStream
    end.

(** The [for] loop of [or] with its two variables; [deepestError] starts as
    [null] and [deepestErrorPosition] as [-1]. *)
Fixpoint or_loop {T : Type} (parsers : list (ParseFn T))
         (deepestError : ParserResult T) (deepestErrorPosition : Z)
         (tokenStream : TokenStream.t) : Outcome (ParserResult T) :=
  match parsers with
  | [] => Ret deepestError tokenStream
  | parser :: rest =>
      let tryParse := attempt parser in
      let* (result, tokenStream) := tryParse tokenStream in
      match result with
      | Successful r => Ret (Successful r) tokenStream
      | Failed errorMessage position =>
          if (Z.of_nat (ParserErrorPosition.position position)
              >? deepestErrorPosition)%Z
          then or_loop rest (Failed errorMessage position)
                       (Z.of_nat (ParserErrorPosition.position position))
                       tokenStream
          else or_loop rest deepestError deepestErrorPosition tokenStream
      | Null => Throw (null_read "result") tokenStream
      end
  end.

Definition or {T : Type} (parsers : list (ParseFn T)) : ParseFn T :=
  fun tokenStream => or_loop parsers Null (-1)%Z tokenStream.

(** The [while (true)] loop of [many] followed by the statements after it;
    [fuel] bounds the number of iterations.  [parseFailure] is only ever set
    on the iteration that leaves the loop, so the test after the loop is
    made where the loop is left. *)
Fixpoint many_loop {T : Type} (fuel : nat) (parser : ParseFn T)
         (results : list T) (tokenStream : TokenStream.t)
  : Outcome (ParserResult (list T)) :=
  match fuel with
  | O => OutOfFuel
  | S fuel =>
      let positionBefore := TokenStream.position tokenStream in
      let tokenStream := TokenStream.storePosition tokenStream in
      let* (result, tokenStream) := parser tokenStream in
      match result with
      | Successful r =>
          let positionAfter := TokenStream.position tokenStream in
          if positionAfter =? positionBefore
          then
            (* restorePosition(); break;  parseFailure is still null *)
            Ret (Successful results) (TokenStream.restorePosition tokenStream)
          else
            many_loop fuel parser (results ++ [r])
                      (TokenStream.clearPosition tokenStream)
      | Failed errorMessage position =>
          (* parseFailure = result; restorePosition(); break; *)
          let tokenStream := TokenStream.restorePosition tokenStream in
          if List.length results =? 0
          then Ret (Failed errorMessage position) tokenStream
          else Ret (Successful results) tokenStream
      | Null => Throw (null_read "result") tokenStream
      end
  end.

Definition many {T : Type} (fuel : nat) (parser : ParseFn T) : ParseFn (list T) :=
  fun tokenStream => many_loop fuel parser [] tokenStream.

Definition map {T U : Type} (parser : ParseFn T) (mapper : T -> U) : ParseFn U :=
  fun tokenStream =>
    let* (result, tokenStream) := parser tokenStream in
    match result with
    | Successful r => Ret (Successful (mapper r)) tokenStream
    | Failed errorMessage position =>
        Ret (Failed errorMessage position) tokenStream
    | Null => Throw (null_read "result") tokenStream
    end.

Definition label {T : Type} (label : string) (parser : ParseFn T) : ParseFn T :=
  fun tokenStream =>
    let* (result, tokenStream) := parser tokenStream in
    match result with
    | Successful r => Ret (Successful r) tokenStream
    | Failed errorMessage position =>
        Ret (Failed (label ++ ": " ++ errorMessage)%string position) tokenStream
    | Null => Throw (null_read "result") tokenStream
    end.

End Combinators.

(* ================================================================== *)
(** ** parsers/runners.ts *)

Definition runParser {T : Type} (parser : ParseFn T) (tokenStream : TokenStream.t)
  : Outcome (ParserResult T) :=
  let* (test, tokenStream) := parser tokenStream in
  match test with
  | Failed errorMessage position =>
      Throw (new_ParserError errorMessage position) tokenStream
  | Successful _ => Ret test tokenStream
  | Null => Throw (null_read "errorMessage") tokenStream
  end.

(** [inl e]: [tokenize] threw before there was a stream. *)
Definition runParserOnString {T : Type} (parser : ParseFn T) (input : string)
           (tokenizer : Tokenizer.t) : Exn + Outcome (ParserResult T) :=
  match Tokenizer.tokenize tokenizer input with
  | inl e => inl e
  | inr tokens => inr (runParser parser (TokenStream.new tokens))
  end.

(* ================================================================== *)
(** ** Vocabulary of the statements *)

(** A [Tokenizer] built by the fluent calls
    [new Tokenizer().withTokenType(/[a-zA-Z]/, 'letter')
                    .withTokenType(/[0-9]/, 'digit')]. *)
Definition letter_digit : Tokenizer.t :=
  Tokenizer.withTokenType (MRegExp DigitRegex) "digit"
    (Tokenizer.withTokenType (MRegExp LetterRegex) "letter" Tokenizer.new).

(** The string ["\n"]. *)
Definition newline : string := str_of_char (ascii_of_nat 10).

(** A [Tokenizer] whose only rule is the newline character, registered as the
    designated newline type:
    [new Tokenizer(new Map(), 'newline').withTokenType('\n', 'newline')]. *)
Definition newline_only : Tokenizer.t :=
  Tokenizer.withTokenType (MString newline) "newline"
    (Tokenizer.mk [] (Some "newline")).

Definition tok (value : string) (type : TokenType) (line column : nat) : Token.t :=
  Token.mk value type (TokenPosition.mk line column).

(** *** Sequences of [TokenStream] operations *)

Inductive Op : Type :=
| OpPeek
| OpConsume
| OpConsumeIf (types : list TokenType)
| OpStorePosition
| OpClearPosition
| OpRestorePosition.

Definition apply_op (op : Op) (s : TokenStream.t) : TokenStream.t :=
  match op with
  | OpPeek => s
  | OpConsume => snd (TokenStream.consume s)
  | OpConsumeIf types => snd (TokenStream.consumeIf types s)
  | OpStorePosition => TokenStream.storePosition s
  | OpClearPosition => TokenStream.clearPosition s
  | OpRestorePosition => TokenStream.restorePosition s
  end.

(** The stream after each operation of [ops], in order. *)
Fixpoint states_after (s : TokenStream.t) (ops : list Op) : list TokenStream.t :=
  match ops with
  | [] => []
  | op :: rest => apply_op op s :: states_after (apply_op op s) rest
  end.

(** [0 <= cursor <= len(tokens)] *)
Definition cursor_in_bounds (s : TokenStream.t) : Prop :=
  0 <= TokenStream.position s <= List.length (TokenStream.tokens s).

(** Every [consume] of [ops] finds a token under the cursor. *)
Fixpoint consume_finds_token (s : TokenStream.t) (ops : list Op) : bool :=
  match ops with
  | [] => true
  | op :: rest =>
      match op with
      | OpConsume =>
          TokenStream.position s <? List.length (TokenStream.tokens s)
      | _ => true
      end && consume_finds_token (apply_op op s) rest
  end.

(** *** Alternatives of [or] that all fail *)

Definition Failure : Type := (string * ParserErrorPosition.t)%type.

Definition depth (f : Failure) : nat := ParserErrorPosition.position (snd f).

(** [all_fail ps s fs s']: tried one after the other from [s], each under
    [attempt] and on the stream the previous one left, the parsers [ps] fail
    with the failures [fs], leaving the stream as [s']. *)
Inductive all_fail {T : Type}
  : list (ParseFn T) -> TokenStream.t -> list Failure -> TokenStream.t -> Prop :=
| all_fail_nil : forall s, all_fail [] s [] s
| all_fail_cons : forall p ps s errorMessage position s1 fs s2,
    Combinators.attempt p s = Ret (Failed errorMessage position) s1 ->
    all_fail ps s1 fs s2 ->
    all_fail (p :: ps) s ((errorMessage, position) :: fs) s2.

(** [f] is the [i]-th of [fs], no failure of [fs] is deeper, and every
    failure before it is strictly shallower. *)
Definition first_deepest (fs : list Failure) (i : nat) (f : Failure) : Prop :=
  nth_error fs i = Some f /\
  (forall j g, nth_error fs j = Some g -> depth g <= depth f) /\
  (forall j g, j < i -> nth_error fs j = Some g -> depth g < depth f).

(** The state of [or]'s two loop variables after the failures [seen]. *)
Definition or_vars {T : Type} (seen : list Failure)
           (deepestError : ParserResult T) (deepestErrorPosition : Z) : Prop :=
  (seen = [] /\ deepestError = Null /\ deepestErrorPosition = (-1)%Z) \/
  (exists i f, first_deepest seen i f /\
               deepestError = Failed (fst f) (snd f) /\
               deepestErrorPosition = Z.of_nat (depth f)).


(** *** What the caller of the runner receives *)

(** The union [T | ParserResult<T>]: the parsed value itself, or the result
    object around it. *)
Inductive Returned (T : Type) : Type :=
| Value (v : T)
| ResultObject (r : ParserResult T).

Definition returned {A B : Type} (f : A -> B) (m : Outcome A) : Outcome B :=
  let* (a, s) := m in Ret (f a) s.

(** The runner as the specification words it: on [Failure] raise, on
    [Success] return the value. *)
Definition run_returning_value {T : Type} (parser : ParseFn T)
           (tokenStream : TokenStream.t) : Outcome T :=
  let* (test, tokenStream) := parser tokenStream in
  match test with
  | Failed errorMessage position =>
      Throw (new_ParserError errorMessage position) tokenStream
  | Successful v => Ret v tokenStream
  | Null => Throw (null_read "errorMessage") tokenStream
  end.

(* ================================================================== *)
(** ** utils.ts *)

(** An element of the array given to [unwrapResult]: an item, or an array of
    such elements ([Array.isArray] tells them apart, so an item is never an
    array itself). *)
#[warnings="-register-all"]
Inductive Nested (T : Type) : Type :=
| Item (item : T)
| Arr (items : list (Nested T)).

(** What one element adds to [result]: the item itself, or
    [...unwrapResult(item)]. *)
Fixpoint unwrapElement {T : Type} (element : Nested T) : list T :=
  match element with
  | Item item => [item]
  | Arr items =>
      (fix unwrap (items : list (Nested T)) : list T :=
         match items with
         | [] => []
         | element :: rest => unwrapElement element ++ unwrap rest
         end) items
  end.

(** The [for (const item of items)] loop, pushing onto [result]. *)
Fixpoint unwrapResult {T : Type} (items : list (Nested T)) : list T :=
  match items with
  | [] => []
  | element :: rest => unwrapElement element ++ unwrapResult rest
  end.

(* ================================================================== *)
(** ** Tokenizer.ts, with the rules in an array *)

(** The version of the tokenizer that keeps its rules as an array of
    [{ matcher, type }], registers them with [withTokenType(type, matcher)],
    starts the column at 0 and remembers in [matched] whether a rule
    matched. *)
Module ArrayTokenizer.

Record t := mk {
  tokenTypeMatchers : list (Matcher * TokenType);
  newLineTokenType : option TokenType
}.

(** [new Tokenizer()] *)
Definition new : t := mk [] None.

Definition withTokenType (type : TokenType) (matcher : Matcher) (this : t) : t :=
  mk (tokenTypeMatchers this ++ [(matcher, type)]) (newLineTokenType this).

(** [matcher] against [char]: the conditions of the two [if]s. *)
Definition string_matches (matcher : Matcher) (char : ascii) : bool :=
  match matcher with
  | MString s => String.eqb (str_of_char char) s
  | MRegExp _ => false
  end.

Definition regexp_matches (matcher : Matcher) (char : ascii) : bool :=
  match matcher with
  | MString _ => false
  | MRegExp r => test r char
  end.

(** [type === this.newLineTokenType] *)
Definition is_newLineTokenType (this : t) (type : TokenType) : bool :=
  match newLineTokenType this with
  | Some newLine => String.eqb type newLine
  | None => false
  end.

(** The [for (const { matcher, type } of this.tokenTypeMatchers.values())]
    loop for one character, over the variables it changes: [matched], the
    shared [position] and [tokens]. *)
Fixpoint for_matchers (this : t) (entries : list (Matcher * TokenType))
         (char : ascii) (matched : bool) (position : TokenPosition.t)
         (tokens : list Token.t)
  : bool * TokenPosition.t * list Token.t :=
  match entries with
  | [] => (matched, position, tokens)
  | (matcher, type) :: rest =>
      if string_matches matcher char
      then (* push; matched = true; break *)
        (true, position,
         tokens ++ [Token.mk (str_of_char char) type position])
      else
        if regexp_matches matcher char
        then (* push; matched = true; break *)
          (true, position,
           tokens ++ [Token.mk (str_of_char char) type position])
        else
          let position :=
            if matched && is_newLineTokenType this type
            then TokenPosition.mk (TokenPosition.line position + 1)
                                  (TokenPosition.column position)
            else position in
          for_matchers this rest char matched position tokens
  end.

Fixpoint reduce (this : t) (chars : list ascii)
         (position : TokenPosition.t) (tokens : list Token.t)
  : Exn + list Token.t :=
  match chars with
  | [] => inr tokens
  | char :: rest =>
      (* position.column += 1; let matched = false; *)
      let position :=
        TokenPosition.mk (TokenPosition.line position)
                         (TokenPosition.column position + 1) in
      match for_matchers this (tokenTypeMatchers this) char false
                         position tokens with
      | (matched, position, tokens) =>
          if negb matched
          then inl (Error ("No token type matched for character: "
                             ++ str_of_char char)%string)
          else reduce this rest position tokens
      end
  end.

Definition tokenize (this : t) (input : string) : Exn + list Token.t :=
  reduce this (list_ascii_of_string input) (TokenPosition.mk 1 0) [].

End ArrayTokenizer.

(* ================================================================== *)
(** ** [many], before the progress check *)

(** The version of [many] that has no test of the cursor: every success of
    the parser is kept and the loop goes round again. *)
Module EarlierCombinators.

Fixpoint many_loop {T : Type} (fuel : nat) (parser : ParseFn T)
         (results : list T) (tokenStream : TokenStream.t)
  : Outcome (ParserResult (list T)) :=
  match fuel with
  | O => OutOfFuel
  | S fuel =>
      let tokenStream := TokenStream.storePosition tokenStream in
      let* (result, tokenStream) := parser tokenStream in
      match result with
      | Successful r =>
          many_loop fuel parser (results ++ [r])
                    (TokenStream.clearPosition tokenStream)
      | Failed errorMessage position =>
          (* parseFailure = result; restorePosition(); break; *)
          let tokenStream := TokenStream.restorePosition tokenStream in
          if List.length results =? 0
          then Ret (Failed errorMessage position) tokenStream
          else Ret (Successful results) tokenStream
      | Null => Throw (null_read "result") tokenStream
      end
  end.

Definition many {T : Type} (fuel : nat) (parser : ParseFn T) : ParseFn (list T) :=
  fun tokenStream => many_loop fuel parser [] tokenStream.

End EarlierCombinators.

(* ================================================================== *)
(** ** Vocabulary of the further properties *)

(** The characters of [chars] as the tokens of type [type] on line [line],
    the first one in column [column]. *)
Fixpoint tokens_at (type : ascii -> TokenType) (line column : nat)
         (chars : list ascii) : list Token.t :=
  match chars with
  | [] => []
  | char :: rest =>
      tok (str_of_char char) (type char) line column
        :: tokens_at type line (column + 1) rest
  end.

(** [matcher] accepts [char]: it is that one-character string, or a regular
    expression whose [test] holds of it. *)
Definition accepts (matcher : Matcher) (char : ascii) : bool :=
  match matcher with
  | MString s => String.eqb (str_of_char char) s
  | MRegExp r => test r char
  end.

(** The type of the first entry whose matcher accepts [char]. *)
Fixpoint first_match (entries : list (Matcher * TokenType)) (char : ascii)
  : option TokenType :=
  match entries with
  | [] => None
  | (matcher, type) :: rest =>
      if accepts matcher char then Some type else first_match rest char
  end.

(** The type a character gets from [entries]; the empty string when no
    entry accepts it. *)
Definition type_of_char (entries : list (Matcher * TokenType)) (char : ascii)
  : TokenType :=
  match first_match entries char with
  | Some type => type
  | None => ""
  end.

(** No entry accepts [char]. *)
Definition unmatched (entries : list (Matcher * TokenType)) (char : ascii)
  : bool :=
  match first_match entries char with
  | Some _ => false
  | None => true
  end.

(** [new Error(`No token type matched for character: ${char}`)] *)
Definition no_match (char : ascii) : Exn :=
  Error ("No token type matched for character: " ++ str_of_char char)%string.

(** The longest prefix of [l] whose elements satisfy [f]. *)
Fixpoint take_while {A : Type} (f : A -> bool) (l : list A) : list A :=
  match l with
  | [] => []
  | x :: rest => if f x then x :: take_while f rest else []
  end.

(** A parse function that, whenever it returns, has left the token array
    and the backtrack stack as it found them. *)
Definition keeps_stack {T : Type} (p : ParseFn T) : Prop :=
  forall s r s',
    p s = Ret r s' ->
    TokenStream.tokens s' = TokenStream.tokens s /\
    TokenStream.positionStack s' = TokenStream.positionStack s.

(** [progresses p s vs s']: applied again and again as [many] does, from
    [s], the parser [p] succeeds with the values [vs], moving the cursor
    each time, and the stream is then [s']. *)
Inductive progresses {T : Type} (p : ParseFn T)
  : TokenStream.t -> list T -> TokenStream.t -> Prop :=
| progresses_nil : forall s, progresses p s [] s
| progresses_cons : forall s v s1 vs s2,
    p (TokenStream.storePosition s) = Ret (Successful v) s1 ->
    TokenStream.position s1 <> TokenStream.position s ->
    progresses p (TokenStream.clearPosition s1) vs s2 ->
    progresses p s (v :: vs) s2.

(** [in_sequence ps s vs s']: run one after the other from [s], the parsers
    [ps] all succeed, with the values [vs], and the stream is then [s']. *)
Inductive in_sequence {T : Type}
  : list (ParseFn T) -> TokenStream.t -> list T -> TokenStream.t -> Prop :=
| in_sequence_nil : forall s, in_sequence [] s [] s
| in_sequence_cons : forall p ps s v s1 vs s2,
    p s = Ret (Successful v) s1 ->
    in_sequence ps s1 vs s2 ->
    in_sequence (p :: ps) s (v :: vs) s2.

(** Operations that only read or move the cursor. *)
Definition is_cursor_op (op : Op) : bool :=
  match op with
  | OpPeek | OpConsume | OpConsumeIf _ => true
  | _ => false
  end.

Definition apply_ops (ops : list Op) (s : TokenStream.t) : TokenStream.t :=
  fold_left (fun s op => apply_op op s) ops s.

(* ================================================================== *)
(** * Properties *)

Unset Implicit Arguments.

(** ** Tokenizer *)

(** The loop body never reaches its end: it leaves the loop with a token
    or throws. *)
Lemma body_never_falls_through :
  forall matcher type char position tokens,
    Tokenizer.body matcher type char position tokens <> Tokenizer.Next.
Proof.
  intros matcher type char position tokens. unfold Tokenizer.body.
  destruct matcher as [s|r].
  - now destruct (String.eqb (str_of_char char) s).
  - now destruct (test r char).
Qed.

(** So only the first registered rule decides a character: when it does not
    match, the loop throws before any later rule is tried. *)
Lemma match_char_first_rule_only :
  forall matcher type rest char position tokens,
    Tokenizer.match_char ((matcher, type) :: rest) char position tokens
    = Tokenizer.match_char [(matcher, type)] char position tokens.
Proof.
  intros matcher type rest char position tokens. cbn [Tokenizer.match_char].
  pose proof (body_never_falls_through matcher type char position tokens) as H.
  now destruct (Tokenizer.body matcher type char position tokens).
Qed.

(** Without any rule the loop body never runs: every character is dropped. *)
Lemma reduce_no_rule :
  forall this chars position tokens,
    Tokenizer.tokenTypeMatchers this = [] ->
    Tokenizer.reduce this chars position tokens = inr tokens.
Proof.
  intros this chars; induction chars as [|char rest IH];
    intros position tokens E; simpl; [reflexivity|].
  rewrite E; simpl. now apply IH.
Qed.

(** The tokens of a successful [reduce] extend the tokens it started from,
    all on the line it started on, with consecutive columns. *)
Lemma reduce_positions :
  forall this chars position tokens out,
    Tokenizer.reduce this chars position tokens = inr out ->
    exists new,
      out = tokens ++ new /\
      forall i t, nth_error new i = Some t ->
        TokenPosition.line (Token.position t) = TokenPosition.line position /\
        TokenPosition.column (Token.position t)
        = TokenPosition.column position + 1 + i.
Proof.
  intros this.
  destruct (Tokenizer.tokenTypeMatchers this) as [|[matcher type] entries] eqn:E.
  - intros chars position tokens out H.
    rewrite reduce_no_rule in H by assumption. injection H as <-.
    exists []. split; [now rewrite app_nil_r|].
    intros [|i] t Hn; discriminate Hn.
  - induction chars as [|char rest IH]; intros position tokens out H;
      cbn [Tokenizer.reduce] in H.
    + injection H as <-. exists []. split; [now rewrite app_nil_r|].
      intros [|i] t Hn; discriminate Hn.
    + rewrite E in H; cbn [Tokenizer.match_char] in H.
      unfold Tokenizer.body in H.
      set (position' := TokenPosition.mk (TokenPosition.line position)
                          (TokenPosition.column position + 1)) in *.
      assert (Hstep : exists t0,
                 Token.position t0 = position' /\
                 Tokenizer.reduce this rest position' (tokens ++ [t0]) = inr out).
      { destruct matcher as [s|r].
        - destruct (String.eqb (str_of_char char) s); [|discriminate H].
          eexists; split; [|exact H]; reflexivity.
        - destruct (test r char); [|discriminate H].
          eexists; split; [|exact H]; reflexivity. }
      destruct Hstep as (t0 & Ht0 & Hrest).
      apply IH in Hrest. destruct Hrest as (new & -> & Hnew).
      exists (t0 :: new). split; [now rewrite <- app_assoc|].
      intros [|i] t Hn; simpl in Hn.
      * injection Hn as <-. rewrite Ht0. simpl. split; [reflexivity|lia].
      * apply Hnew in Hn. simpl in Hn. destruct Hn as [Hl Hc].
        split; [exact Hl|lia].
Qed.

(** C1 (the code departs from the claim).  With the rules letter, digit
    registered in this order, [tokenize("ab12")] emits the two letters and
    then throws on ['1']: the first rule does not match it and the [throw]
    sits inside the loop over the rules, so the digit rule is never tried. *)
Theorem tokenize_ab12_throws_at_first_digit :
  Tokenizer.tokenTypeMatchers letter_digit
  = [(MRegExp LetterRegex, "letter"); (MRegExp DigitRegex, "digit")] /\
  Tokenizer.tokenize letter_digit "ab"
  = inr [tok "a" "letter" 1 2; tok "b" "letter" 1 3] /\
  Tokenizer.tokenize letter_digit "ab12"
  = inl (Error "No token type matched for character: 1").
Proof. repeat split; reflexivity. Qed.

(** Whatever the rules and the designated newline type, every token that
    [tokenize] returns is on line 1 and the token at index [i] carries
    column [i + 2]. *)
Lemma tokenize_positions :
  forall this input out,
    Tokenizer.tokenize this input = inr out ->
    forall i t, nth_error out i = Some t ->
      TokenPosition.line (Token.position t) = 1 /\
      TokenPosition.column (Token.position t) = i + 2.
Proof.
  unfold Tokenizer.tokenize. intros this input out H i t Hn.
  apply reduce_positions in H. destruct H as (new & -> & Hnew).
  simpl in Hn. apply Hnew in Hn. simpl in Hn. destruct Hn as [Hl Hc].
  split; [exact Hl|lia].
Qed.

(** C5 (the code departs from the claim).  The column counter starts at 1
    and is incremented before the token is built, so the first character
    carries column 2; [tokenize] never reads [newLineTokenType], so a
    character matching the designated newline type leaves the line at 1 and
    the column keeps counting. *)
Theorem tokenize_first_column_is_2_and_line_never_moves :
  Tokenizer.newLineTokenType newline_only = Some "newline" /\
  Tokenizer.tokenize newline_only (newline ++ newline)
  = inr [tok newline "newline" 1 2; tok newline "newline" 1 3] /\
  Tokenizer.tokenize letter_digit "a" = inr [tok "a" "letter" 1 2].
Proof. repeat split; reflexivity. Qed.

(** ** Token stream *)

Lemma peek_lt :
  forall s token,
    TokenStream.peek s = Some token ->
    TokenStream.position s < List.length (TokenStream.tokens s).
Proof.
  unfold TokenStream.peek. intros s token H.
  apply nth_error_Some. congruence.
Qed.

Lemma consumeIf_position :
  forall types s,
    snd (TokenStream.consumeIf types s) = s \/
    (TokenStream.position s < List.length (TokenStream.tokens s) /\
     snd (TokenStream.consumeIf types s) = snd (TokenStream.consume s)).
Proof.
  intros types s. unfold TokenStream.consumeIf.
  destruct (TokenStream.peek s) as [token|] eqn:P; [|now left].
  destruct (includes types (Token.type token)); [|now left].
  right. split; [now apply peek_lt with token|reflexivity].
Qed.

(** After a failure the position reported is read from the stream as the
    matcher left it; with a token in the array this never throws. *)
Lemma getPositionForError_nonempty :
  forall s,
    TokenStream.tokens s <> [] ->
    exists e,
      TokenStream.getPositionForError s = inr e /\
      ParserErrorPosition.position e = TokenStream.position s.
Proof.
  intros s Hne. unfold TokenStream.getPositionForError.
  destruct (TokenStream.peek s) as [token|] eqn:P.
  - eexists; split; reflexivity.
  - destruct (nth_error (TokenStream.tokens s)
                (List.length (TokenStream.tokens s) - 1)) as [token|] eqn:L.
    + eexists; split; reflexivity.
    + exfalso. apply nth_error_None in L.
      destruct (TokenStream.tokens s); [now apply Hne|simpl in L; lia].
Qed.

(** ** Primitive matchers *)

Lemma includes_single :
  forall t x, includes [t] x = String.eqb x t.
Proof. intros t x. unfold includes. simpl. now rewrite orb_false_r. Qed.

(** [anyOf] on a stream with a token under the cursor: the token is consumed
    whether or not its type is one of [types]. *)
Lemma anyOf_at_token :
  forall types s token,
    TokenStream.peek s = Some token ->
    if includes types (Token.type token)
    then anyOf types s = Ret (Successful token) (snd (TokenStream.consume s))
    else exists position,
        TokenStream.getPositionForError (snd (TokenStream.consume s))
        = inr position /\
        ParserErrorPosition.position position = TokenStream.position s + 1 /\
        anyOf types s
        = Ret (Failed ("Expected token of type " ++ join ", " types
                         ++ ", but got " ++ type_or_end (Some token))%string
                      position)
              (snd (TokenStream.consume s)).
Proof.
  intros types [tokens position stack] token P.
  unfold TokenStream.peek in P; cbn in P.
  unfold anyOf, TokenStream.consume;
    cbn [TokenStream.tokens TokenStream.position TokenStream.positionStack snd].
  rewrite P.
  destruct (includes types (Token.type token)); cbn [negb]; [reflexivity|].
  unfold failed_here.
  destruct (getPositionForError_nonempty
              (TokenStream.mk tokens (position + 1) stack)) as (e & He & Hp).
  - cbn. intros E. rewrite E in P. now destruct position.
  - exists e. rewrite He. repeat split. exact Hp.
Qed.

Lemma getPositionForError_stack :
  forall tokens position stack stack',
    TokenStream.getPositionForError (TokenStream.mk tokens position stack)
    = TokenStream.getPositionForError (TokenStream.mk tokens position stack').
Proof. reflexivity. Qed.

Lemma restore_after_store_consume :
  forall s,
    TokenStream.restorePosition
      (snd (TokenStream.consume (TokenStream.storePosition s))) = s.
Proof. intros [tokens position stack]. reflexivity. Qed.

(** C2, as amended.  At a token of type [t], [anyOf(t)] returns [Success]
    with that token and the cursor has advanced by exactly 1.  At a token of
    another type it returns [Failure], and the cursor has advanced by exactly
    1 as well: the token is consumed before its type is looked at.  Under
    [attempt] the same failure leaves the stream as it was. *)
Theorem anyOf_consumes_the_token_it_tests :
  forall t s token,
    TokenStream.peek s = Some token ->
    TokenStream.position (snd (TokenStream.consume s))
    = TokenStream.position s + 1 /\
    (Token.type token = t ->
     anyOf [t] s = Ret (Successful token) (snd (TokenStream.consume s))) /\
    (Token.type token <> t ->
     exists errorMessage position,
       anyOf [t] s
       = Ret (Failed errorMessage position) (snd (TokenStream.consume s)) /\
       Combinators.attempt (anyOf [t]) s
       = Ret (Failed errorMessage position) s).
Proof.
  intros t s token P. split; [reflexivity|].
  pose proof (anyOf_at_token [t] s token P) as H. rewrite includes_single in H.
  split; intros Ht.
  - apply String.eqb_eq in Ht. now rewrite Ht in H.
  - apply String.eqb_neq in Ht. rewrite Ht in H.
    destruct H as (position & He & _ & H).
    eexists _, position. split; [exact H|].
    unfold Combinators.attempt.
    assert (P' : TokenStream.peek (TokenStream.storePosition s) = Some token)
      by exact P.
    pose proof (anyOf_at_token [t] (TokenStream.storePosition s) token P') as H'.
    rewrite includes_single, Ht in H'.
    destruct H' as (position' & He' & _ & H').
    assert (position' = position) as ->.
    { assert (E : @inr Exn _ position' = inr position)
        by (rewrite <- He, <- He'; now destruct s).
      now injection E. }
    rewrite H'. cbn [bind isSuccessfulResult].
    now rewrite restore_after_store_consume.
Qed.

(** C2, as stated, fails: on a stream whose only token is a letter,
    [anyOf('digit')] fails with the cursor moved from 0 to 1. *)
Lemma anyOf_mismatch_moves_cursor :
  let s := TokenStream.new [tok "a" "letter" 1 1] in
  TokenStream.peek s = Some (tok "a" "letter" 1 1) /\
  ~ (exists errorMessage position s',
        anyOf ["digit"] s = Ret (Failed errorMessage position) s' /\
        TokenStream.position s' = TokenStream.position s).
Proof.
  split; [reflexivity|].
  intros (errorMessage & position & s' & H & Hp).
  vm_compute in H. injection H as _ _ <-. discriminate Hp.
Qed.

Lemma anyOf_consumes_the_token_it_tests_witness :
  let s := TokenStream.new [tok "a" "letter" 1 1] in
  TokenStream.position (snd (TokenStream.consume s)) = 1 /\
  anyOf ["letter"] s
  = Ret (Successful (tok "a" "letter" 1 1)) (snd (TokenStream.consume s)) /\
  exists errorMessage position,
    anyOf ["digit"] s
    = Ret (Failed errorMessage position) (snd (TokenStream.consume s)) /\
    Combinators.attempt (anyOf ["digit"]) s
    = Ret (Failed errorMessage position) s.
Proof.
  intros s.
  split; [exact (proj1 (anyOf_consumes_the_token_it_tests
                          "letter" s _ eq_refl))|].
  split.
  - exact (proj1 (proj2 (anyOf_consumes_the_token_it_tests
                           "letter" s _ eq_refl)) eq_refl).
  - apply (proj2 (proj2 (anyOf_consumes_the_token_it_tests
                           "digit" s _ eq_refl))).
    discriminate.
Defined.

(** ** The cursor bound *)

Lemma apply_op_tokens :
  forall op s, TokenStream.tokens (apply_op op s) = TokenStream.tokens s.
Proof.
  intros [| |types| | |] [tokens position stack]; try reflexivity.
  - cbn. unfold TokenStream.consumeIf.
    destruct (TokenStream.peek _) as [token|]; [|reflexivity].
    now destruct (includes types (Token.type token)).
  - cbn. unfold TokenStream.restorePosition. cbn. now destruct stack.
Qed.

(** One operation keeps the cursor and every saved position within the
    token array, as long as it is not a [consume] at the end of the input. *)
Lemma apply_op_in_bounds :
  forall op s,
    let n := List.length (TokenStream.tokens s) in
    TokenStream.position s <= n ->
    Forall (fun p => p <= n) (TokenStream.positionStack s) ->
    (op = OpConsume -> TokenStream.position s < n) ->
    TokenStream.position (apply_op op s) <= n /\
    Forall (fun p => p <= n) (TokenStream.positionStack (apply_op op s)).
Proof.
  intros op s n Hp Hs Hc. subst n.
  destruct op as [| |types| | |]; cbn [apply_op].
  - now split.
  - specialize (Hc eq_refl). cbn. split; [lia|exact Hs].
  - destruct (consumeIf_position types s) as [->|[Hlt ->]]; [now split|].
    cbn. split; [lia|exact Hs].
  - cbn. split; [exact Hp|now constructor].
  - cbn. split; [exact Hp|].
    destruct (TokenStream.positionStack s) as [|pos rest]; cbn [tl];
      [constructor|inversion Hs; subst; assumption].
  - unfold TokenStream.restorePosition.
    destruct (TokenStream.positionStack s) as [|pos rest] eqn:E.
    + rewrite E. split; [exact Hp|constructor].
    + inversion Hs; subst. now split.
Qed.

Lemma states_after_in_bounds :
  forall ops s,
    TokenStream.position s <= List.length (TokenStream.tokens s) ->
    Forall (fun p => p <= List.length (TokenStream.tokens s))
           (TokenStream.positionStack s) ->
    consume_finds_token s ops = true ->
    Forall cursor_in_bounds (states_after s ops).
Proof.
  induction ops as [|op rest IH]; intros s Hp Hs Hc; cbn [states_after];
    [constructor|].
  cbn [consume_finds_token] in Hc. apply andb_true_iff in Hc.
  destruct Hc as [Hop Hrest].
  destruct (apply_op_in_bounds op s Hp Hs) as [Hp' Hs'].
  { intros ->. now apply Nat.ltb_lt. }
  rewrite <- (apply_op_tokens op s) in Hp', Hs'.
  constructor.
  - unfold cursor_in_bounds. split; [lia|exact Hp'].
  - now apply IH.
Qed.

(** C4, as amended.  Over any token sequence, after each operation of any
    sequence of [peek], [consume], [consumeIf], [storePosition],
    [clearPosition], [restorePosition] applied to a fresh stream,
    [0 <= cursor <= len(tokens)], provided every [consume] of the sequence
    is applied while a token is left under the cursor. *)
Theorem cursor_stays_in_bounds :
  forall tokens ops,
    consume_finds_token (TokenStream.new tokens) ops = true ->
    Forall cursor_in_bounds (states_after (TokenStream.new tokens) ops).
Proof.
  intros tokens ops H. apply states_after_in_bounds; cbn; [lia|constructor|exact H].
Qed.

(** C4, as stated, fails: [consume] at the end of the input moves the cursor
    to [len(tokens) + 1], and so does [endOfInput], which calls it. *)
Lemma consume_at_end_leaves_bounds :
  ~ Forall cursor_in_bounds (states_after (TokenStream.new []) [OpConsume]) /\
  exists s,
    endOfInput (TokenStream.new []) = Ret (Successful tt) s /\
    ~ cursor_in_bounds s.
Proof.
  split.
  - intros H. inversion H as [|s l Hb _]; subst.
    unfold cursor_in_bounds in Hb. cbn in Hb. lia.
  - eexists. split; [reflexivity|].
    unfold cursor_in_bounds. cbn. lia.
Qed.

Lemma cursor_stays_in_bounds_witness :
  Forall cursor_in_bounds
    (states_after
       (TokenStream.new [tok "a" "letter" 1 1; tok "1" "digit" 1 2])
       [OpPeek; OpStorePosition; OpConsume; OpConsumeIf ["letter"];
        OpConsumeIf ["digit"]; OpConsumeIf ["digit"]; OpRestorePosition;
        OpStorePosition; OpConsume; OpClearPosition; OpRestorePosition]).
Proof. apply cursor_stays_in_bounds. reflexivity. Defined.

(** ** [many] *)

Section Many.

Variable T : Type.
Variable p : ParseFn T.

(** The loop is left on the first application of [p] that fails; with
    nothing accumulated the failure itself is returned. *)
Lemma many_loop_failure :
  forall fuel results s errorMessage position s1,
    p (TokenStream.storePosition s) = Ret (Failed errorMessage position) s1 ->
    Combinators.many_loop (S fuel) p results s
    = Ret (if List.length results =? 0
           then Failed errorMessage position
           else Successful results)
          (TokenStream.restorePosition s1).
Proof.
  intros fuel results s errorMessage position s1 H.
  cbn [Combinators.many_loop]. rewrite H. cbn [bind].
  now destruct (List.length results =? 0).
Qed.

(** The loop is left, with what was accumulated and as a success, on the
    first application of [p] that succeeds with the cursor where it was. *)
Lemma many_loop_zero_width :
  forall fuel results s v s1,
    p (TokenStream.storePosition s) = Ret (Successful v) s1 ->
    TokenStream.position s1 = TokenStream.position s ->
    Combinators.many_loop (S fuel) p results s
    = Ret (Successful results) (TokenStream.restorePosition s1).
Proof.
  intros fuel results s v s1 H Hpos.
  cbn [Combinators.many_loop]. rewrite H. cbn [bind].
  now rewrite Hpos, Nat.eqb_refl.
Qed.

(** An application that succeeds with the cursor moved is kept and the loop
    goes round again. *)
Lemma many_loop_progress :
  forall fuel results s v s1,
    p (TokenStream.storePosition s) = Ret (Successful v) s1 ->
    TokenStream.position s1 <> TokenStream.position s ->
    Combinators.many_loop (S fuel) p results s
    = Combinators.many_loop fuel p (results ++ [v])
                            (TokenStream.clearPosition s1).
Proof.
  intros fuel results s v s1 H Hpos.
  cbn [Combinators.many_loop]. rewrite H. cbn [bind].
  apply Nat.eqb_neq in Hpos. now rewrite Hpos.
Qed.


End Many.

(** C3, as amended.  [many(p)] accumulates nothing in two cases.  When the
    first application of [p] fails, [many(p)] returns that failure, never an
    empty-list success.  When the first application of [p] succeeds without
    moving the cursor, no failure has been seen and [many(p)] returns the
    success of the empty list. *)
Theorem many_with_nothing_accumulated :
  forall (T : Type) (p : ParseFn T) fuel s,
    (forall errorMessage position s1,
        p (TokenStream.storePosition s)
        = Ret (Failed errorMessage position) s1 ->
        Combinators.many (S fuel) p s
        = Ret (Failed errorMessage position)
              (TokenStream.restorePosition s1)) /\
    (forall v s1,
        p (TokenStream.storePosition s) = Ret (Successful v) s1 ->
        TokenStream.position s1 = TokenStream.position s ->
        Combinators.many (S fuel) p s
        = Ret (Successful []) (TokenStream.restorePosition s1)).
Proof.
  intros T p fuel s. split.
  - intros errorMessage position s1 H. unfold Combinators.many.
    now rewrite (many_loop_failure T p fuel [] s errorMessage position s1 H).
  - intros v s1 H Hpos. unfold Combinators.many.
    now apply many_loop_zero_width with v.
Qed.

(** C3, as stated, fails: [optional(anyOf('digit'))] succeeds on a letter
    without consuming it, and [many] of it returns the success of the empty
    list, not a failure. *)
Lemma many_of_zero_width_success_is_empty_success :
  let s := TokenStream.new [tok "a" "letter" 1 1] in
  let p := Combinators.optional (anyOf ["digit"]) true in
  p (TokenStream.storePosition s)
  = Ret (Successful None) (TokenStream.storePosition s) /\
  forall fuel, Combinators.many (S fuel) p s = Ret (Successful []) s.
Proof. split; [reflexivity|]. intros fuel. reflexivity. Qed.

Lemma many_with_nothing_accumulated_witness :
  let s := TokenStream.new [tok "a" "letter" 1 1] in
  Combinators.many 1 (anyOf ["digit"]) s
  = Ret (Failed "Expected token of type digit, but got letter"
                (ParserErrorPosition.mk 1 1 1)) s /\
  Combinators.many 1 (Combinators.optional (anyOf ["digit"]) true) s
  = Ret (Successful []) s.
Proof.
  intros s. split.
  - exact (proj1 (many_with_nothing_accumulated
                    Token.t (anyOf ["digit"]) 0 s) _ _ _ eq_refl).
  - exact (proj2 (many_with_nothing_accumulated
                    (option Token.t)
                    (Combinators.optional (anyOf ["digit"]) true) 0 s)
                 None (TokenStream.storePosition s) eq_refl eq_refl).
Defined.






(** What [optional(anyOf(types))] does, case by case: with a token of one
    of the [types] under the cursor it consumes it; otherwise it succeeds
    with [null] and the stream as it was, unless no position can be computed
    for the failure it swallows. *)
Lemma optional_anyOf_run :
  forall types tokens position stack,
    Combinators.optional (anyOf types) true
                         (TokenStream.mk tokens position stack)
    = match nth_error tokens position with
      | Some token =>
          if includes types (Token.type token)
          then Ret (Successful (Some token))
                   (TokenStream.mk tokens (position + 1) stack)
          else
            match TokenStream.getPositionForError
                    (TokenStream.mk tokens (position + 1) stack) with
            | inl e => Throw e (TokenStream.mk tokens (position + 1)
                                               (position :: stack))
            | inr _ => Ret (Successful None)
                           (TokenStream.mk tokens position stack)
            end
      | None =>
          match TokenStream.getPositionForError
                  (TokenStream.mk tokens (position + 1) stack) with
          | inl e => Throw e (TokenStream.mk tokens (position + 1)
                                             (position :: stack))
          | inr _ => Ret (Successful None)
                         (TokenStream.mk tokens position stack)
          end
      end.
Proof.
  intros types tokens position stack.
  unfold Combinators.optional, Combinators.attempt, anyOf, failed_here,
    TokenStream.consume, TokenStream.storePosition.
  cbn [TokenStream.tokens TokenStream.position TokenStream.positionStack].
  rewrite (getPositionForError_stack tokens (position + 1)
                                     (position :: stack) stack).
  destruct (nth_error tokens position) as [token|].
  - destruct (includes types (Token.type token)); cbn [negb]; [reflexivity|].
    now destruct (TokenStream.getPositionForError _).
  - now destruct (TokenStream.getPositionForError _).
Qed.






(** C8 (the code departs from the claim).  On the empty token sequence
    [anyOf('digit')] finds no token and asks the stream for the position of
    the error; with no token to fall back on, [getPositionForError] reads
    [position] of [undefined] and throws.  So [many(anyOf('digit'))] throws
    a [TypeError] instead of returning a failure, with the saved position
    still on the stack. *)
Theorem many_anyOf_on_empty_input_throws :
  forall fuel,
    Combinators.many (S fuel) (anyOf ["digit"]) (TokenStream.new [])
    = Throw (TypeError
               "Cannot read properties of undefined (reading 'position')")
            (TokenStream.mk [] 1 [0]).
Proof. intros fuel. reflexivity. Qed.

(** ** [or] *)

Section Or.

Variable T : Type.

(** One more failure [f]: the loop variables change exactly when [f] is
    strictly deeper than everything seen so far. *)
Lemma or_vars_step :
  forall seen (deepestError : ParserResult T) deepestErrorPosition f,
    or_vars seen deepestError deepestErrorPosition ->
    if (Z.of_nat (depth f) >? deepestErrorPosition)%Z
    then or_vars (seen ++ [f]) (@Failed T (fst f) (snd f)) (Z.of_nat (depth f))
    else or_vars (seen ++ [f]) deepestError deepestErrorPosition.
Proof.
  intros seen de dp f Hvars.
  destruct (Z.of_nat (depth f) >? dp)%Z eqn:Q.
  - apply Z.gtb_lt in Q. right. exists (List.length seen), f.
    split; [|now split].
    assert (Hseen : forall j g, nth_error seen j = Some g -> depth g < depth f).
    { intros j g Hg. destruct Hvars as [(-> & _ & _)|(i & f0 & Hf0 & _ & ->)].
      - now destruct j.
      - destruct Hf0 as (_ & Hmax & _). specialize (Hmax j g Hg). lia. }
    repeat split.
    + rewrite nth_error_app2 by lia. now rewrite Nat.sub_diag.
    + intros j g Hg. destruct (Nat.lt_ge_cases j (List.length seen)) as [Hj|Hj].
      * rewrite nth_error_app1 in Hg by assumption.
        apply Hseen in Hg. lia.
      * rewrite nth_error_app2 in Hg by assumption.
        destruct (j - List.length seen) as [|k]; cbn in Hg;
          [injection Hg as <-; lia|now destruct k].
    + intros j g Hj Hg. rewrite nth_error_app1 in Hg by assumption.
      now apply Hseen with j.
  - rewrite Z.gtb_ltb in Q. apply Z.ltb_ge in Q.
    destruct Hvars as [(_ & _ & ->)|(i & f0 & Hf0 & -> & ->)]; [lia|].
    right. exists i, f0. split; [|now split].
    destruct Hf0 as (Hnth & Hmax & Hbefore).
    assert (Hi : i < List.length seen) by (apply nth_error_Some; congruence).
    repeat split.
    + now rewrite nth_error_app1.
    + intros j g Hg. destruct (Nat.lt_ge_cases j (List.length seen)) as [Hj|Hj].
      * rewrite nth_error_app1 in Hg by assumption. now apply Hmax with j.
      * rewrite nth_error_app2 in Hg by assumption.
        destruct (j - List.length seen) as [|k]; cbn in Hg;
          [injection Hg as <-; lia|now destruct k].
    + intros j g Hj Hg. rewrite nth_error_app1 in Hg by lia.
      now apply Hbefore with j.
Qed.

(** When every alternative fails the loop runs to its end, and its variables
    then describe all the failures. *)
Lemma or_loop_all_fail :
  forall (ps : list (ParseFn T)) s fs s',
    all_fail ps s fs s' ->
    forall seen deepestError deepestErrorPosition,
      or_vars seen deepestError deepestErrorPosition ->
      exists deepestError' deepestErrorPosition',
        Combinators.or_loop ps deepestError deepestErrorPosition s
        = Ret deepestError' s' /\
        or_vars (seen ++ fs) deepestError' deepestErrorPosition'.
Proof.
  intros ps s fs s' H.
  induction H as [s|p ps s errorMessage position s1 fs s2 Hp Hrest IH];
    intros seen de dp Hvars.
  - exists de, dp. rewrite app_nil_r. now split.
  - cbn [Combinators.or_loop]. rewrite Hp. cbn [bind].
    pose proof (or_vars_step seen de dp (errorMessage, position) Hvars) as Hstep.
    unfold depth in Hstep at 1. cbn [fst snd] in Hstep.
    replace (seen ++ (errorMessage, position) :: fs)
      with ((seen ++ [(errorMessage, position)]) ++ fs)
      by now rewrite <- app_assoc.
    destruct (Z.of_nat (ParserErrorPosition.position position) >? dp)%Z;
      now apply IH.
Qed.

(** The first alternative to succeed, after alternatives that failed, ends
    the loop with its success. *)
Lemma or_loop_first_success :
  forall (pre : list (ParseFn T)) s fs s1,
    all_fail pre s fs s1 ->
    forall p post v s2 deepestError deepestErrorPosition,
      Combinators.attempt p s1 = Ret (Successful v) s2 ->
      Combinators.or_loop (pre ++ p :: post) deepestError deepestErrorPosition s
      = Ret (Successful v) s2.
Proof.
  intros pre s fs s1 H.
  induction H as [s|p0 ps s errorMessage position s1 fs s2 Hp Hrest IH];
    intros p post v s3 de dp Hsucc.
  - cbn [app Combinators.or_loop]. now rewrite Hsucc.
  - cbn [app Combinators.or_loop]. rewrite Hp. cbn [bind].
    destruct (Z.of_nat (ParserErrorPosition.position position) >? dp)%Z;
      now apply IH.
Qed.


End Or.

(** C6.  Let the alternatives [pre] of [or] all fail, with the failures
    [fs].  If the alternative listed next succeeds, [or] returns that
    success, whatever the alternatives after it would do (left bias).  If
    [pre] is the whole, non-empty list, [or] returns a failure of [fs] of the
    largest [position], and the earliest-listed one among those. *)
Theorem or_returns_first_success_else_first_deepest_failure :
  forall (T : Type) (pre : list (ParseFn T)) s fs s1,
    all_fail pre s fs s1 ->
    (forall p post v s2,
        Combinators.attempt p s1 = Ret (Successful v) s2 ->
        Combinators.or (pre ++ p :: post) s = Ret (Successful v) s2) /\
    (pre <> [] ->
     exists i f,
       first_deepest fs i f /\
       Combinators.or pre s = Ret (Failed (fst f) (snd f)) s1).
Proof.
  intros T pre s fs s1 Hfail. split.
  - intros p post v s2 Hsucc. unfold Combinators.or.
    now apply or_loop_first_success with fs s1.
  - intros Hne. unfold Combinators.or.
    destruct (or_loop_all_fail T pre s fs s1 Hfail [] Null (-1)%Z)
      as (de & dp & Hrun & Hvars); [now left|].
    cbn [app] in Hvars.
    destruct Hvars as [(-> & _ & _)|(i & f & Hf & -> & _)].
    + inversion Hfail; subst; now destruct Hne.
    + now exists i, f.
Qed.

Lemma or_returns_first_success_else_first_deepest_failure_witness :
  let z := tok "z" "z" 1 1 in
  let s := TokenStream.new [z] in
  Combinators.or [anyOf ["x"]; anyOf ["y"]; anyOf ["z"]; anyOf ["z"; "w"]] s
  = Ret (Successful z) (TokenStream.mk [z] 1 []) /\
  exists i f,
    first_deepest [("Expected token of type x, but got z",
                    ParserErrorPosition.mk 1 1 1);
                   ("Expected token of type y, but got z",
                    ParserErrorPosition.mk 1 1 1)] i f /\
    Combinators.or [anyOf ["x"]; anyOf ["y"]] s
    = Ret (Failed (fst f) (snd f)) s.
Proof.
  intros z s.
  assert (Hfail : all_fail [anyOf ["x"]; anyOf ["y"]] s
                    [("Expected token of type x, but got z",
                      ParserErrorPosition.mk 1 1 1);
                     ("Expected token of type y, but got z",
                      ParserErrorPosition.mk 1 1 1)] s).
  { apply all_fail_cons with s; [reflexivity|].
    apply all_fail_cons with s; [reflexivity|].
    apply all_fail_nil. }
  split.
  - exact (proj1 (or_returns_first_success_else_first_deepest_failure
                    Token.t _ s _ s Hfail)
                 (anyOf ["z"]) [anyOf ["z"; "w"]] z _ eq_refl).
  - apply (proj2 (or_returns_first_success_else_first_deepest_failure
                    Token.t _ s _ s Hfail)).
    discriminate.
Defined.



(** ** Runner *)

(** C9, as amended.  [runParser(parser, stream)] applies the parser once:
    the stream it leaves is the one the parser left.  When the parser
    returns a failure it throws a [ParserError] whose message is the
    failure's message behind the prefix [Parser Error [line:column]: ] and
    whose location is the failure's position (line, column, absolute
    position).  When the parser returns a success it returns that result
    object, the value still inside it. *)
Theorem runParser_throws_the_failure_and_returns_the_result_object :
  forall (T : Type) (parser : ParseFn T) s,
    (forall errorMessage position s',
        parser s = Ret (Failed errorMessage position) s' ->
        runParser parser s
        = Throw (ParserError
                   ("Parser Error ["
                      ++ show_nat (ParserErrorPosition.line position) ++ ":"
                      ++ show_nat (ParserErrorPosition.column position)
                      ++ "]: " ++ errorMessage)%string
                   position) s') /\
    (forall v s',
        parser s = Ret (Successful v) s' ->
        runParser parser s = Ret (Successful v) s').
Proof.
  intros T parser s. unfold runParser. split.
  - intros errorMessage position s' H. now rewrite H.
  - intros v s' H. now rewrite H.
Qed.

(** C9, as stated, fails: what [runParser] hands back for a successful
    parse of one digit is the object [{ result: token }], not the token. *)
Lemma runParser_returns_the_wrapper :
  let one := tok "1" "digit" 1 1 in
  let s := TokenStream.new [one] in
  anyOf ["digit"] s = Ret (Successful one) (TokenStream.mk [one] 1 []) /\
  returned (@ResultObject Token.t) (runParser (anyOf ["digit"]) s)
  = Ret (ResultObject (Successful one)) (TokenStream.mk [one] 1 []) /\
  returned (@ResultObject Token.t) (runParser (anyOf ["digit"]) s)
  <> returned (@Value Token.t) (run_returning_value (anyOf ["digit"]) s).
Proof. repeat split. discriminate. Qed.

Lemma runParser_throws_the_failure_and_returns_the_result_object_witness :
  let one := tok "1" "digit" 12 7 in
  let s := TokenStream.new [one] in
  runParser (anyOf ["letter"]) s
  = Throw (ParserError
             "Parser Error [12:7]: Expected token of type letter, but got digit"
             (ParserErrorPosition.mk 12 7 1))
          (TokenStream.mk [one] 1 []) /\
  runParser (anyOf ["digit"]) s
  = Ret (Successful one) (TokenStream.mk [one] 1 []).
Proof.
  intros one s. split.
  - exact (proj1 (runParser_throws_the_failure_and_returns_the_result_object
                    Token.t (anyOf ["letter"]) s)
                 "Expected token of type letter, but got digit"
                 (ParserErrorPosition.mk 12 7 1)
                 (TokenStream.mk [one] 1 []) eq_refl).
  - exact (proj2 (runParser_throws_the_failure_and_returns_the_result_object
                    Token.t (anyOf ["digit"]) s)
                 one (TokenStream.mk [one] 1 []) eq_refl).
Defined.

(** ** Further properties of the combinators *)

(** The positions [tokenize] hands out, at an example: the second token of
    ["ab"] is on line 1, column 3. *)
Lemma tokenize_positions_witness :
  TokenPosition.line (Token.position (tok "b" "letter" 1 3)) = 1 /\
  TokenPosition.column (Token.position (tok "b" "letter" 1 3)) = 1 + 2.
Proof.
  exact (tokenize_positions letter_digit "ab"
           [tok "a" "letter" 1 2; tok "b" "letter" 1 3] eq_refl
           1 (tok "b" "letter" 1 3) eq_refl).
Defined.

(** [attempt(p)] returns what [p] returns.  When [p] fails and has left the
    backtrack stack as [attempt] handed it over, the stream is back to what
    it was before [attempt]; when [p] succeeds under the same condition the
    cursor stays where [p] left it and the stack is as before. *)
Theorem attempt_restores_on_failure_and_keeps_on_success :
  forall (T : Type) (p : ParseFn T) s s1,
    TokenStream.tokens s1 = TokenStream.tokens s ->
    TokenStream.positionStack s1
    = TokenStream.positionStack (TokenStream.storePosition s) ->
    (forall errorMessage position,
        p (TokenStream.storePosition s) = Ret (Failed errorMessage position) s1 ->
        Combinators.attempt p s = Ret (Failed errorMessage position) s) /\
    (forall v,
        p (TokenStream.storePosition s) = Ret (Successful v) s1 ->
        Combinators.attempt p s
        = Ret (Successful v)
              (TokenStream.mk (TokenStream.tokens s) (TokenStream.position s1)
                              (TokenStream.positionStack s))).
Proof.
  intros T p [tokens position stack] [tokens1 position1 stack1] Htok Hstack.
  cbn in Htok, Hstack. subst tokens1 stack1.
  split; intros; unfold Combinators.attempt; rewrite H; reflexivity.
Qed.

Lemma attempt_restores_on_failure_and_keeps_on_success_witness :
  let a := tok "a" "letter" 1 1 in
  let s := TokenStream.new [a] in
  Combinators.attempt (anyOf ["digit"]) s
  = Ret (Failed "Expected token of type digit, but got letter"
                (ParserErrorPosition.mk 1 1 1)) s /\
  Combinators.attempt (anyOf ["letter"]) s
  = Ret (Successful a) (TokenStream.mk [a] 1 []).
Proof.
  intros a s. split.
  - exact (proj1 (attempt_restores_on_failure_and_keeps_on_success
                    Token.t (anyOf ["digit"]) s (TokenStream.mk [a] 1 [0])
                    eq_refl eq_refl) _ _ eq_refl).
  - exact (proj2 (attempt_restores_on_failure_and_keeps_on_success
                    Token.t (anyOf ["letter"]) s (TokenStream.mk [a] 1 [0])
                    eq_refl eq_refl) a eq_refl).
Defined.

(** [label(text, p)] puts [text: ] in front of the message of a failure of
    [p] and keeps its position; a success of [p] passes through. *)
Theorem label_prefixes_the_failure_message :
  forall (T : Type) text (p : ParseFn T) s,
    (forall errorMessage position s',
        p s = Ret (Failed errorMessage position) s' ->
        Combinators.label text p s
        = Ret (Failed (text ++ ": " ++ errorMessage)%string position) s') /\
    (forall v s',
        p s = Ret (Successful v) s' ->
        Combinators.label text p s = Ret (Successful v) s').
Proof.
  intros T text p s. unfold Combinators.label.
  split; intros; rewrite H; reflexivity.
Qed.

Lemma label_prefixes_the_failure_message_witness :
  let a := tok "a" "letter" 1 1 in
  let s := TokenStream.new [a] in
  Combinators.label "expr" (anyOf ["digit"]) s
  = Ret (Failed "expr: Expected token of type digit, but got letter"
                (ParserErrorPosition.mk 1 1 1))
        (TokenStream.mk [a] 1 []) /\
  Combinators.label "expr" (anyOf ["letter"]) s
  = Ret (Successful a) (TokenStream.mk [a] 1 []).
Proof.
  intros a s. split.
  - exact (proj1 (label_prefixes_the_failure_message
                    Token.t "expr" (anyOf ["digit"]) s) _ _ _ eq_refl).
  - exact (proj2 (label_prefixes_the_failure_message
                    Token.t "expr" (anyOf ["letter"]) s) _ _ eq_refl).
Defined.

(** On the tokens of ["ab12"] (two letters, two digits),
    [and(many(anyOf('letter')), many(anyOf('digit')))] succeeds with the two
    lists of tokens, the cursor at the end and the backtrack stack empty. *)
Theorem and_many_letters_many_digits :
  let a := tok "a" "letter" 1 1 in
  let b := tok "b" "letter" 1 2 in
  let one := tok "1" "digit" 1 3 in
  let two := tok "2" "digit" 1 4 in
  forall fuel,
    Combinators.and [Combinators.many (3 + fuel) (anyOf ["letter"]);
                     Combinators.many (3 + fuel) (anyOf ["digit"])]
                    (TokenStream.new [a; b; one; two])
    = Ret (Successful [[a; b]; [one; two]])
          (TokenStream.mk [a; b; one; two] 4 []).
Proof. intros a b one two fuel. reflexivity. Qed.

(** [endOfInput()] on an exhausted cursor succeeds with [null], and the
    cursor has moved past the end. *)
Theorem endOfInput_on_exhausted_cursor :
  forall tokens stack,
    endOfInput (TokenStream.mk tokens (List.length tokens) stack)
    = Ret (Successful tt)
          (TokenStream.mk tokens (List.length tokens + 1) stack).
Proof.
  intros tokens stack. unfold endOfInput, TokenStream.consume.
  cbn [TokenStream.tokens TokenStream.position TokenStream.positionStack].
  replace (nth_error tokens (List.length tokens)) with (@None Token.t);
    [reflexivity|].
  symmetry. apply nth_error_None. lia.
Qed.

(** ** The backtrack stack *)

Lemma failed_here_stream :
  forall (T : Type) errorMessage s (r : ParserResult T) s',
    failed_here errorMessage s = Ret r s' ->
    s' = s /\ exists position, r = Failed errorMessage position.
Proof.
  intros T errorMessage s r s'. unfold failed_here.
  destruct (TokenStream.getPositionForError s) as [e|position];
    [discriminate|].
  intros H. injection H as <- <-. split; [reflexivity|now exists position].
Qed.

(** Whatever a primitive matcher returns, the stream is then the one
    [consume] leaves. *)
Lemma anyOf_stream :
  forall types s r s',
    anyOf types s = Ret r s' -> s' = snd (TokenStream.consume s).
Proof.
  intros types s r s'. unfold anyOf, TokenStream.consume. cbn [snd].
  destruct (nth_error _ _) as [token|].
  - destruct (negb _).
    + intros H. now apply failed_here_stream in H.
    + intros H. now injection H as _ <-.
  - intros H. now apply failed_here_stream in H.
Qed.

Lemma anyExcept_stream :
  forall types s r s',
    anyExcept types s = Ret r s' -> s' = snd (TokenStream.consume s).
Proof.
  intros types s r s'. unfold anyExcept, TokenStream.consume. cbn [snd].
  destruct (nth_error _ _) as [token|].
  - destruct (includes _ _).
    + intros H. now apply failed_here_stream in H.
    + intros H. now injection H as _ <-.
  - intros H. now apply failed_here_stream in H.
Qed.

Lemma endOfInput_stream :
  forall s r s',
    endOfInput s = Ret r s' -> s' = snd (TokenStream.consume s).
Proof.
  intros s r s'. unfold endOfInput, TokenStream.consume. cbn [snd].
  destruct (nth_error _ _) as [token|].
  - destruct (negb _).
    + intros H. now apply failed_here_stream in H.
    + intros H. now injection H as _ <-.
  - intros H. now injection H as _ <-.
Qed.

Lemma anyOf_keeps_stack : forall types, keeps_stack (anyOf types).
Proof.
  intros types s r s' H. apply anyOf_stream in H. subst s'. now split.
Qed.

Lemma anyExcept_keeps_stack : forall types, keeps_stack (anyExcept types).
Proof.
  intros types s r s' H. apply anyExcept_stream in H. subst s'. now split.
Qed.

Lemma endOfInput_keeps_stack : keeps_stack endOfInput.
Proof.
  intros s r s' H. apply endOfInput_stream in H. subst s'. now split.
Qed.

Section Discipline.

Variable T : Type.
Variable p : ParseFn T.
Hypothesis p_keeps_stack : keeps_stack p.

(** What [attempt(p)] returns and where it leaves the stream, for a [p]
    that keeps the stack. *)
Lemma attempt_run :
  forall s r s',
    Combinators.attempt p s = Ret r s' ->
    exists s1,
      p (TokenStream.storePosition s) = Ret r s1 /\
      match r with
      | Successful _ =>
          s' = TokenStream.mk (TokenStream.tokens s) (TokenStream.position s1)
                              (TokenStream.positionStack s)
      | _ => s' = s
      end.
Proof.
  intros s r s'. unfold Combinators.attempt.
  destruct (p (TokenStream.storePosition s)) as [r1 s1| |] eqn:E;
    cbn [bind]; [|discriminate|discriminate].
  destruct (p_keeps_stack _ _ _ E) as [Htok Hstack].
  destruct s as [tokens position stack], s1 as [tokens1 position1 stack1].
  cbn in Htok, Hstack. subst tokens1 stack1.
  destruct r1 as [v|errorMessage e|]; cbn [isSuccessfulResult];
    [| |discriminate]; intros H; injection H as <- <-;
    eexists; (split; [reflexivity|reflexivity]).
Qed.

Lemma attempt_keeps_stack : keeps_stack (Combinators.attempt p).
Proof.
  intros s r s' H. apply attempt_run in H. destruct H as (s1 & _ & H).
  destruct r; subst s'; now split.
Qed.

End Discipline.

Section DisciplineOfCombinators.

Variable T : Type.

Lemma optional_keeps_stack :
  forall (p : ParseFn T) shouldBacktrack,
    keeps_stack p -> keeps_stack (Combinators.optional p shouldBacktrack).
Proof.
  intros p shouldBacktrack Hp s r s'. unfold Combinators.optional.
  assert (Hfn : keeps_stack
                  (if shouldBacktrack then Combinators.attempt p else p))
    by (destruct shouldBacktrack; [now apply attempt_keeps_stack|exact Hp]).
  destruct ((if shouldBacktrack then Combinators.attempt p else p) s)
    as [r1 s1| |] eqn:E; cbn [bind]; [|discriminate|discriminate].
  apply Hfn in E.
  destruct r1; [| |discriminate]; intros H; now injection H as _ <-.
Qed.

Lemma map_keeps_stack :
  forall (U : Type) (p : ParseFn T) (mapper : T -> U),
    keeps_stack p -> keeps_stack (Combinators.map p mapper).
Proof.
  intros U p mapper Hp s r s'. unfold Combinators.map.
  destruct (p s) as [r1 s1| |] eqn:E; cbn [bind]; [|discriminate|discriminate].
  apply Hp in E.
  destruct r1; [| |discriminate]; intros H; now injection H as _ <-.
Qed.

Lemma label_keeps_stack :
  forall text (p : ParseFn T),
    keeps_stack p -> keeps_stack (Combinators.label text p).
Proof.
  intros text p Hp s r s'. unfold Combinators.label.
  destruct (p s) as [r1 s1| |] eqn:E; cbn [bind]; [|discriminate|discriminate].
  apply Hp in E.
  destruct r1; [| |discriminate]; intros H; now injection H as _ <-.
Qed.

Lemma and_loop_keeps_stack :
  forall (ps : list (ParseFn T)),
    Forall keeps_stack ps ->
    forall results s r s',
      Combinators.and_loop ps results s = Ret r s' ->
      TokenStream.tokens s' = TokenStream.tokens s /\
      TokenStream.positionStack s' = TokenStream.positionStack s.
Proof.
  induction 1 as [|p ps Hp Hps IH]; intros results s r s' H;
    cbn [Combinators.and_loop] in H.
  - injection H as _ <-. now split.
  - destruct (p s) as [r1 s1| |] eqn:E; cbn [bind] in H;
      [|discriminate|discriminate].
    apply Hp in E. destruct E as [Etok Estack].
    destruct r1 as [v|errorMessage position|]; [| |discriminate].
    + apply IH in H. destruct H as [Htok Hstack]. split; congruence.
    + injection H as _ <-. now split.
Qed.

(** Whatever [or] returns, the stack is as before; and when it is not a
    success, so is the cursor. *)
Lemma or_loop_stream :
  forall (ps : list (ParseFn T)),
    Forall keeps_stack ps ->
    forall deepestError deepestErrorPosition s r s',
      Combinators.or_loop ps deepestError deepestErrorPosition s = Ret r s' ->
      TokenStream.tokens s' = TokenStream.tokens s /\
      TokenStream.positionStack s' = TokenStream.positionStack s /\
      ((forall v, r <> Successful v) -> s' = s).
Proof.
  induction 1 as [|p ps Hp Hps IH]; intros de dp s r s' H;
    cbn [Combinators.or_loop] in H.
  - injection H as _ <-. now repeat split.
  - destruct (Combinators.attempt p s) as [r1 s1| |] eqn:E; cbn [bind] in H;
      [|discriminate|discriminate].
    apply (attempt_run T p Hp) in E. destruct E as (s0 & _ & E).
    destruct r1 as [v|errorMessage position|]; [| |discriminate].
    + injection H as <- <-. subst s1. cbn. repeat split.
      intros Hv. now destruct (Hv v).
    + subst s1.
      destruct (Z.of_nat (ParserErrorPosition.position position) >? dp)%Z;
        now apply IH in H.
Qed.

Section ManyKeeps.

Variable p : ParseFn T.
Hypothesis p_keeps_stack : keeps_stack p.

Lemma many_loop_stream :
  forall fuel results s r s',
    Combinators.many_loop fuel p results s = Ret r s' ->
    TokenStream.tokens s' = TokenStream.tokens s /\
    TokenStream.positionStack s' = TokenStream.positionStack s /\
    (forall errorMessage position,
        r = Failed errorMessage position -> results = [] /\ s' = s).
Proof.
  induction fuel as [|fuel IH]; intros results s r s' H; [discriminate|].
  cbn [Combinators.many_loop] in H.
  destruct (p (TokenStream.storePosition s)) as [r1 s1| |] eqn:E;
    cbn [bind] in H; [|discriminate|discriminate].
  apply p_keeps_stack in E. destruct E as [Etok Estack].
  destruct s as [tokens position stack], s1 as [tokens1 position1 stack1].
  cbn in Etok, Estack. subst tokens1 stack1.
  destruct r1 as [v|errorMessage e|]; [| |discriminate].
  - cbn [TokenStream.position] in H.
    destruct (position1 =? position).
    + injection H as <- <-. cbn. repeat split; discriminate.
    + apply IH in H. cbn in H. destruct H as (Htok & Hstack & Hfail).
      repeat split; [exact Htok|exact Hstack| |];
        apply Hfail in H; destruct H as [H _]; now destruct results.
  - cbn in H. destruct results as [|v results]; cbn in H.
    + injection H as <- <-. now repeat split.
    + injection H as <- <-. cbn. repeat split; discriminate.
Qed.

End ManyKeeps.

End DisciplineOfCombinators.

(** Every push on the backtrack stack is matched by one pop.  The three
    primitive matchers never touch the stack, and each combinator, given
    parsers that leave the stack (and the token array) as they found it
    whenever they return, builds a parser that does so too. *)
Theorem combinators_keep_the_backtrack_stack :
  (forall types, keeps_stack (anyOf types) /\ keeps_stack (anyExcept types)) /\
  keeps_stack endOfInput /\
  (forall (T : Type) (p : ParseFn T),
      keeps_stack p ->
      keeps_stack (Combinators.attempt p) /\
      (forall shouldBacktrack,
          keeps_stack (Combinators.optional p shouldBacktrack)) /\
      (forall fuel, keeps_stack (Combinators.many fuel p)) /\
      (forall text, keeps_stack (Combinators.label text p)) /\
      (forall (U : Type) (mapper : T -> U),
          keeps_stack (Combinators.map p mapper))) /\
  (forall (T : Type) (ps : list (ParseFn T)),
      Forall keeps_stack ps ->
      keeps_stack (Combinators.or ps) /\ keeps_stack (Combinators.and ps)).
Proof.
  split; [|split; [|split]].
  - intros types. split; [apply anyOf_keeps_stack|apply anyExcept_keeps_stack].
  - apply endOfInput_keeps_stack.
  - intros T p Hp. split; [|split; [|split; [|split]]].
    + now apply attempt_keeps_stack.
    + intros shouldBacktrack. now apply optional_keeps_stack.
    + intros fuel s r s' H. unfold Combinators.many in H.
      apply (many_loop_stream T p Hp) in H. now destruct H as (? & ? & _).
    + intros text. now apply label_keeps_stack.
    + intros U mapper. now apply map_keeps_stack.
  - intros T ps Hps. split; intros s r s' H.
    + unfold Combinators.or in H.
      apply (or_loop_stream T ps Hps) in H. now destruct H as (? & ? & _).
    + unfold Combinators.and in H.
      now apply (and_loop_keeps_stack T ps Hps) in H.
Qed.

Lemma combinators_keep_the_backtrack_stack_witness :
  keeps_stack
    (Combinators.and
       [Combinators.many 5 (anyOf ["letter"]);
        Combinators.many 5
          (Combinators.or [anyOf ["digit"];
                           Combinators.attempt (anyExcept ["letter"])])]).
Proof.
  destruct combinators_keep_the_backtrack_stack
    as (Hprim & _ & Hone & Hlist).
  pose proof (proj1 (Hprim ["letter"])) as Hletter.
  pose proof (proj1 (Hprim ["digit"])) as Hdigit.
  pose proof (proj1 (Hone _ _ (proj2 (Hprim ["letter"])))) as Hattempt.
  pose proof (proj1 (Hlist _ _ (Forall_cons _ Hdigit
                                  (Forall_cons _ Hattempt (Forall_nil _)))))
    as Hor.
  pose proof (proj1 (proj2 (proj2 (Hone _ _ Hletter))) 5) as Hmany1.
  pose proof (proj1 (proj2 (proj2 (Hone _ _ Hor))) 5) as Hmany2.
  exact (proj2 (Hlist _ _ (Forall_cons _ Hmany1
                             (Forall_cons _ Hmany2 (Forall_nil _))))).
Defined.



(** ** What [many] and [and] collect *)

Lemma many_loop_progresses :
  forall (T : Type) (p : ParseFn T) s vs s2,
    progresses p s vs s2 ->
    forall fuel results,
      Combinators.many_loop (List.length vs + fuel) p results s
      = Combinators.many_loop fuel p (results ++ vs) s2.
Proof.
  intros T p s vs s2 H.
  induction H as [s|s v s1 vs s2 Hv Hmoved _ IH]; intros fuel results.
  - now rewrite app_nil_r.
  - cbn [List.length Nat.add].
    rewrite (many_loop_progress T p _ results s v s1 Hv Hmoved).
    rewrite IH. now rewrite <- app_assoc.
Qed.

(** When [p] succeeds [n >= 1] times in a row, moving the cursor each time,
    and its next application fails or succeeds without moving the cursor,
    [many(p)] returns the success of exactly those [n] values, in order;
    the last application is undone by [restorePosition]. *)
Theorem many_returns_the_values_of_the_progressing_applications :
  forall (T : Type) (p : ParseFn T) s vs s2 s3,
    progresses p s vs s2 ->
    vs <> [] ->
    (exists errorMessage position,
        p (TokenStream.storePosition s2)
        = Ret (Failed errorMessage position) s3) \/
    (exists v,
        p (TokenStream.storePosition s2) = Ret (Successful v) s3 /\
        TokenStream.position s3 = TokenStream.position s2) ->
    forall fuel,
      List.length vs < fuel ->
      Combinators.many fuel p s
      = Ret (Successful vs) (TokenStream.restorePosition s3).
Proof.
  intros T p s vs s2 s3 Hruns Hne Hstop fuel Hfuel.
  unfold Combinators.many.
  replace fuel with (List.length vs + S (fuel - List.length vs - 1)) by lia.
  rewrite (many_loop_progresses T p s vs s2 Hruns). cbn [app].
  destruct Hstop as [(errorMessage & position & Hfail)|(v & Hv & Hsame)].
  - rewrite (many_loop_failure T p _ vs s2 errorMessage position s3 Hfail).
    destruct vs; [now destruct Hne|reflexivity].
  - now rewrite (many_loop_zero_width T p _ vs s2 v s3 Hv Hsame).
Qed.

Lemma many_returns_the_values_of_the_progressing_applications_witness :
  let one := tok "1" "digit" 1 1 in
  let two := tok "2" "digit" 1 2 in
  let a := tok "a" "letter" 1 3 in
  Combinators.many 3 (anyOf ["digit"]) (TokenStream.new [one; two; a])
  = Ret (Successful [one; two]) (TokenStream.mk [one; two; a] 2 []).
Proof.
  intros one two a.
  apply (many_returns_the_values_of_the_progressing_applications
           Token.t (anyOf ["digit"]) (TokenStream.new [one; two; a])
           [one; two] (TokenStream.mk [one; two; a] 2 [])
           (TokenStream.mk [one; two; a] 3 [2])).
  - apply progresses_cons with (TokenStream.mk [one; two; a] 1 [0]);
      [reflexivity|discriminate|].
    apply progresses_cons with (TokenStream.mk [one; two; a] 2 [1]);
      [reflexivity|discriminate|].
    apply progresses_nil.
  - discriminate.
  - left. eexists _, _. reflexivity.
  - cbn. lia.
Defined.

Lemma skipn_cons_nth_error :
  forall (A : Type) (l : list A) n x rest,
    skipn n l = x :: rest ->
    nth_error l n = Some x /\ skipn (n + 1) l = rest.
Proof.
  intros A l. induction l as [|y l IH]; intros n x rest H.
  - now destruct n.
  - destruct n as [|n]; cbn in H.
    + injection H as -> ->. now split.
    + cbn. now apply IH.
Qed.

Lemma skipn_nil_nth_error :
  forall (A : Type) (l : list A) n,
    skipn n l = [] -> nth_error l n = None.
Proof.
  intros A l. induction l as [|y l IH]; intros n H.
  - now destruct n.
  - destruct n as [|n]; cbn in H; [discriminate|]. cbn. now apply IH.
Qed.

(** The loop of [many(anyOf(types))] over a non-empty token array: it keeps
    the tokens under the cursor for as long as their type is one of
    [types], and stops on the first other token or at the end. *)
Lemma many_loop_anyOf :
  forall types tokens stack,
    tokens <> [] ->
    forall rest position results fuel,
      skipn position tokens = rest ->
      let run := take_while (fun t => includes types (Token.type t)) rest in
      List.length run < fuel ->
      exists errorMessage e,
        Combinators.many_loop fuel (anyOf types) results
                              (TokenStream.mk tokens position stack)
        = Ret (if List.length (results ++ run) =? 0
               then Failed errorMessage e
               else Successful (results ++ run))
              (TokenStream.mk tokens (position + List.length run) stack).
Proof.
  intros types tokens stack Hne.
  assert (Hstop : forall position results fuel,
             (forall token, nth_error tokens position = Some token ->
                            includes types (Token.type token) = false) ->
             exists errorMessage e,
               Combinators.many_loop (S fuel) (anyOf types) results
                                     (TokenStream.mk tokens position stack)
               = Ret (if List.length results =? 0
                      then Failed errorMessage e
                      else Successful results)
                     (TokenStream.mk tokens position stack)).
  { intros position results fuel Hno.
    destruct (getPositionForError_nonempty
                (TokenStream.mk tokens (position + 1) (position :: stack)) Hne)
      as (e & He & _).
    assert (Hfail : exists errorMessage,
               anyOf types (TokenStream.storePosition
                              (TokenStream.mk tokens position stack))
               = Ret (Failed errorMessage e)
                     (TokenStream.mk tokens (position + 1) (position :: stack))).
    { unfold anyOf, TokenStream.consume, TokenStream.storePosition, failed_here.
      cbn [TokenStream.tokens TokenStream.position TokenStream.positionStack].
      rewrite He.
      destruct (nth_error tokens position) as [token|] eqn:P.
      - rewrite (Hno token eq_refl). cbn [negb]. now eexists.
      - now eexists. }
    destruct Hfail as (errorMessage & Hfail).
    exists errorMessage, e.
    now rewrite (many_loop_failure Token.t (anyOf types) fuel results _
                   errorMessage e _ Hfail). }
  induction rest as [|x rest IH]; intros position results fuel Hskip run Hfuel.
  - subst run. cbn [take_while List.length] in *.
    destruct fuel as [|fuel]; [lia|].
    rewrite app_nil_r, Nat.add_0_r. apply Hstop.
    intros token Htoken. apply skipn_nil_nth_error in Hskip. congruence.
  - apply skipn_cons_nth_error in Hskip. destruct Hskip as [Hx Hrest].
    subst run. cbn [take_while] in *.
    destruct (includes types (Token.type x)) eqn:Hin.
    + cbn [List.length] in *. destruct fuel as [|fuel]; [lia|].
      rewrite (many_loop_progress Token.t (anyOf types) fuel results _ x
                 (TokenStream.mk tokens (position + 1) (position :: stack))).
      * change (TokenStream.clearPosition
                  (TokenStream.mk tokens (position + 1) (position :: stack)))
          with (TokenStream.mk tokens (position + 1) stack).
        destruct (IH (position + 1) (results ++ [x]) fuel Hrest)
          as (errorMessage & e & Hrun); [lia|].
        exists errorMessage, e. rewrite Hrun.
        rewrite <- app_assoc. cbn [app].
        now replace (position + 1 + List.length
                       (take_while (fun t => includes types (Token.type t)) rest))
          with (position + S (List.length
                       (take_while (fun t => includes types (Token.type t)) rest)))
          by lia.
      * unfold anyOf, TokenStream.consume, TokenStream.storePosition.
        cbn [TokenStream.tokens TokenStream.position TokenStream.positionStack].
        now rewrite Hx, Hin.
      * cbn. lia.
    + cbn [List.length] in *. destruct fuel as [|fuel]; [lia|].
      rewrite app_nil_r, Nat.add_0_r. apply Hstop.
      intros token Htoken. congruence.
Qed.

(** On a non-empty token array [many(anyOf(types))] returns the longest run
    of tokens, from the cursor on, whose type is one of [types], and leaves
    the cursor just behind it; if that run is empty it returns a failure and
    the stream is as it was. *)
Theorem many_anyOf_takes_the_longest_run :
  forall types tokens position stack fuel,
    tokens <> [] ->
    let run := take_while (fun t => includes types (Token.type t))
                          (skipn position tokens) in
    List.length run < fuel ->
    (run <> [] ->
     Combinators.many fuel (anyOf types) (TokenStream.mk tokens position stack)
     = Ret (Successful run)
           (TokenStream.mk tokens (position + List.length run) stack)) /\
    (run = [] ->
     exists errorMessage e,
       Combinators.many fuel (anyOf types)
                        (TokenStream.mk tokens position stack)
       = Ret (Failed errorMessage e) (TokenStream.mk tokens position stack)).
Proof.
  intros types tokens position stack fuel Hne run Hfuel.
  destruct (many_loop_anyOf types tokens stack Hne (skipn position tokens)
              position [] fuel eq_refl Hfuel) as (errorMessage & e & H).
  cbn [app] in H. fold run in H. unfold Combinators.many. split.
  - intros Hrun. rewrite H. destruct run; [now destruct Hrun|reflexivity].
  - intros Hrun. exists errorMessage, e. rewrite H, Hrun. cbn.
    now rewrite Nat.add_0_r.
Qed.

Lemma many_anyOf_takes_the_longest_run_witness :
  let a := tok "a" "letter" 1 1 in
  let one := tok "1" "digit" 1 2 in
  let two := tok "2" "digit" 1 3 in
  let b := tok "b" "letter" 1 4 in
  Combinators.many 3 (anyOf ["digit"; "dot"])
                   (TokenStream.mk [a; one; two; b] 1 [0])
  = Ret (Successful [one; two]) (TokenStream.mk [a; one; two; b] 3 [0]) /\
  exists errorMessage e,
    Combinators.many 1 (anyOf ["digit"; "dot"])
                     (TokenStream.mk [a; one; two; b] 3 [0])
    = Ret (Failed errorMessage e) (TokenStream.mk [a; one; two; b] 3 [0]).
Proof.
  intros a one two b. split.
  - apply (proj1 (many_anyOf_takes_the_longest_run
                    ["digit"; "dot"] [a; one; two; b] 1 [0] 3
                    ltac:(discriminate) ltac:(cbn; lia))).
    discriminate.
  - apply (proj2 (many_anyOf_takes_the_longest_run
                    ["digit"; "dot"] [a; one; two; b] 3 [0] 1
                    ltac:(discriminate) ltac:(cbn; lia))).
    reflexivity.
Defined.

Lemma and_loop_in_sequence :
  forall (T : Type) (ps : list (ParseFn T)) s vs s',
    in_sequence ps s vs s' ->
    forall rest results,
      Combinators.and_loop (ps ++ rest) results s
      = Combinators.and_loop rest (results ++ vs) s'.
Proof.
  intros T ps s vs s' H.
  induction H as [s|p ps s v s1 vs s2 Hp _ IH]; intros rest results.
  - now rewrite app_nil_r.
  - cbn [app Combinators.and_loop]. rewrite Hp. cbn [bind].
    rewrite IH. now rewrite <- app_assoc.
Qed.

(** [and] runs its parsers in order, each on the stream the one before left.
    If all succeed it returns their values in the same order.  If one
    fails, [and] returns that failure at once and does not rewind: the
    stream is the one the failing parser left, with everything the parsers
    before it consumed still consumed, and the parsers after it are not
    run. *)
Theorem and_returns_the_values_in_order_and_never_rewinds :
  forall (T : Type) (ps : list (ParseFn T)) s vs s1,
    in_sequence ps s vs s1 ->
    Combinators.and ps s = Ret (Successful vs) s1 /\
    (forall p rest errorMessage position s2,
        p s1 = Ret (Failed errorMessage position) s2 ->
        Combinators.and (ps ++ p :: rest) s
        = Ret (Failed errorMessage position) s2).
Proof.
  intros T ps s vs s1 H. unfold Combinators.and. split.
  - rewrite <- (app_nil_r ps). now rewrite (and_loop_in_sequence T ps s vs s1 H).
  - intros p rest errorMessage position s2 Hp.
    rewrite (and_loop_in_sequence T ps s vs s1 H).
    cbn [Combinators.and_loop]. now rewrite Hp.
Qed.

Lemma and_returns_the_values_in_order_and_never_rewinds_witness :
  let a := tok "a" "letter" 1 1 in
  let one := tok "1" "digit" 1 2 in
  let s := TokenStream.new [a; one] in
  Combinators.and [anyOf ["letter"]; anyOf ["digit"]] s
  = Ret (Successful [a; one]) (TokenStream.mk [a; one] 2 []) /\
  Combinators.and [anyOf ["letter"]; anyOf ["digit"]; anyOf ["letter"];
                   anyOf ["digit"]] s
  = Ret (Failed "Expected token of type letter, but got end of input"
                (ParserErrorPosition.mk 1 2 3))
        (TokenStream.mk [a; one] 3 []).
Proof.
  intros a one s.
  assert (H : in_sequence [anyOf ["letter"]; anyOf ["digit"]] s [a; one]
                          (TokenStream.mk [a; one] 2 [])).
  { apply in_sequence_cons with (TokenStream.mk [a; one] 1 []);
      [reflexivity|].
    apply in_sequence_cons with (TokenStream.mk [a; one] 2 []);
      [reflexivity|].
    apply in_sequence_nil. }
  split.
  - exact (proj1 (and_returns_the_values_in_order_and_never_rewinds
                    Token.t _ s _ _ H)).
  - exact (proj2 (and_returns_the_values_in_order_and_never_rewinds
                    Token.t _ s _ _ H)
                 (anyOf ["letter"]) [anyOf ["digit"]] _ _ _ eq_refl).
Defined.

(** ** What [tokenize] returns *)

Lemma body_accepts :
  forall matcher type char position tokens,
    Tokenizer.body matcher type char position tokens
    = if accepts matcher char
      then Tokenizer.Break
             (tokens ++ [Token.mk (str_of_char char) type position])
      else Tokenizer.Thrown (no_match char).
Proof.
  intros [s|r] type char position tokens; unfold Tokenizer.body, accepts.
  - now destruct (String.eqb (str_of_char char) s).
  - now destruct (test r char).
Qed.

Lemma reduce_first_rule :
  forall this matcher type rest,
    Tokenizer.tokenTypeMatchers this = (matcher, type) :: rest ->
    forall chars position tokens,
      Tokenizer.reduce this chars position tokens
      = match find (fun char => negb (accepts matcher char)) chars with
        | Some char => inl (no_match char)
        | None =>
            inr (tokens ++ tokens_at (fun _ => type)
                                     (TokenPosition.line position)
                                     (TokenPosition.column position + 1)
                                     chars)
        end.
Proof.
  intros this matcher type rest E.
  induction chars as [|char chars IH]; intros position tokens.
  - cbn. now rewrite app_nil_r.
  - cbn [Tokenizer.reduce find tokens_at]. rewrite E.
    cbn [Tokenizer.match_char]. rewrite body_accepts.
    destruct (accepts matcher char); cbn [negb]; [|reflexivity].
    rewrite IH. cbn [TokenPosition.line TokenPosition.column].
    destruct (find _ chars); [reflexivity|].
    now rewrite <- app_assoc.
Qed.

(** [tokenize] is decided by the first registered rule alone.  It throws
    [No token type matched for character: c] for the first character [c] of
    the input that the first rule's matcher does not accept, whatever the
    later rules are; and when that matcher accepts every character it
    returns one token per character, in order, each with the character as
    value, the first rule's type, line 1 and columns 2, 3, ... *)
Theorem tokenize_is_decided_by_the_first_rule :
  forall this matcher type rest input,
    Tokenizer.tokenTypeMatchers this = (matcher, type) :: rest ->
    Tokenizer.tokenize this input
    = match find (fun char => negb (accepts matcher char))
                 (list_ascii_of_string input) with
      | Some char => inl (no_match char)
      | None =>
          inr (tokens_at (fun _ => type) 1 2 (list_ascii_of_string input))
      end.
Proof.
  intros this matcher type rest input E. unfold Tokenizer.tokenize.
  now rewrite (reduce_first_rule this matcher type rest E).
Qed.

Lemma tokenize_is_decided_by_the_first_rule_witness :
  Tokenizer.tokenize letter_digit "ab1c"
  = inl (Error "No token type matched for character: 1") /\
  Tokenizer.tokenize letter_digit "ab"
  = inr [tok "a" "letter" 1 2; tok "b" "letter" 1 3].
Proof.
  split.
  - exact (tokenize_is_decided_by_the_first_rule
             letter_digit (MRegExp LetterRegex) "letter"
             [(MRegExp DigitRegex, "digit")] "ab1c" eq_refl).
  - exact (tokenize_is_decided_by_the_first_rule
             letter_digit (MRegExp LetterRegex) "letter"
             [(MRegExp DigitRegex, "digit")] "ab" eq_refl).
Defined.

(** A [Tokenizer] without any rule never throws: it drops every character
    and returns the empty array for every input. *)
Theorem tokenize_without_rules_returns_nothing :
  forall this input,
    Tokenizer.tokenTypeMatchers this = [] ->
    Tokenizer.tokenize this input = inr [].
Proof.
  intros this input E. unfold Tokenizer.tokenize. now apply reduce_no_rule.
Qed.

Lemma tokenize_without_rules_returns_nothing_witness :
  Tokenizer.tokenize Tokenizer.new "ab12" = inr [].
Proof.
  exact (tokenize_without_rules_returns_nothing Tokenizer.new "ab12" eq_refl).
Defined.

Lemma reduce_same_first_rule :
  forall this this' matcher type rest rest',
    Tokenizer.tokenTypeMatchers this = (matcher, type) :: rest ->
    Tokenizer.tokenTypeMatchers this' = (matcher, type) :: rest' ->
    forall chars position tokens,
      Tokenizer.reduce this' chars position tokens
      = Tokenizer.reduce this chars position tokens.
Proof.
  intros this this' matcher type rest rest' E E' chars position tokens.
  rewrite (reduce_first_rule this matcher type rest E).
  now rewrite (reduce_first_rule this' matcher type rest' E').
Qed.

(** Once a first rule is registered, registering a rule under any other
    matcher changes nothing: [tokenize] returns or throws exactly what it
    did before, on every input.  Registering the first rule's own matcher
    again keeps it first and only replaces its type. *)
Theorem withTokenType_after_the_first_rule_changes_nothing :
  forall this matcher type rest matcher' type',
    Tokenizer.tokenTypeMatchers this = (matcher, type) :: rest ->
    (same_key matcher matcher' = false ->
     forall input,
       Tokenizer.tokenize (Tokenizer.withTokenType matcher' type' this) input
       = Tokenizer.tokenize this input) /\
    (same_key matcher matcher' = true ->
     Tokenizer.tokenTypeMatchers (Tokenizer.withTokenType matcher' type' this)
     = (matcher, type') :: rest).
Proof.
  intros this matcher type rest matcher' type' E. split; intros Hkey.
  - intros input. unfold Tokenizer.tokenize.
    apply reduce_same_first_rule
      with matcher type rest (map_set rest matcher' type'); [exact E|].
    unfold Tokenizer.withTokenType. cbn [Tokenizer.tokenTypeMatchers].
    rewrite E. cbn [map_set]. now rewrite Hkey.
  - unfold Tokenizer.withTokenType. cbn [Tokenizer.tokenTypeMatchers].
    rewrite E. cbn [map_set]. now rewrite Hkey.
Qed.

Lemma withTokenType_after_the_first_rule_changes_nothing_witness :
  let letters :=
    Tokenizer.withTokenType (MRegExp LetterRegex) "letter" Tokenizer.new in
  Tokenizer.tokenize letter_digit "a1" = Tokenizer.tokenize letters "a1" /\
  Tokenizer.tokenTypeMatchers
    (Tokenizer.withTokenType (MRegExp LetterRegex) "word" letters)
  = [(MRegExp LetterRegex, "word")].
Proof.
  intros letters. split.
  - exact (proj1 (withTokenType_after_the_first_rule_changes_nothing
                    letters (MRegExp LetterRegex) "letter" []
                    (MRegExp DigitRegex) "digit" eq_refl) eq_refl "a1").
  - exact (proj2 (withTokenType_after_the_first_rule_changes_nothing
                    letters (MRegExp LetterRegex) "letter" []
                    (MRegExp LetterRegex) "word" eq_refl) eq_refl).
Defined.

(** ** What is left of the input *)

Lemma join_empty_cons :
  forall x xs, join "" (x :: xs) = (x ++ join "" xs)%string.
Proof.
  intros x xs. unfold join. cbn [String.concat].
  destruct xs as [|y ys]; [|reflexivity].
  cbn [String.concat]. induction x as [|c x IH]; [reflexivity|].
  cbn. now rewrite <- IH.
Qed.

Lemma join_chars :
  forall chars,
    join "" (List.map str_of_char chars) = string_of_list_ascii chars.
Proof.
  induction chars as [|char chars IH]; [reflexivity|].
  cbn [List.map]. rewrite join_empty_cons, IH. reflexivity.
Qed.

Lemma values_of_tokens_at :
  forall type line chars column,
    List.map Token.value (tokens_at type line column chars)
    = List.map str_of_char chars.
Proof.
  intros type line. induction chars as [|char chars IH]; intros column;
    [reflexivity|].
  cbn [tokens_at List.map]. now rewrite IH.
Qed.

(** [peekRemainder] is the text still to be consumed: empty when no token
    is under the cursor, and otherwise the value of the token under the
    cursor followed by the remainder after consuming it. *)
Theorem peekRemainder_is_what_consume_has_left :
  forall s,
    match TokenStream.consume s with
    | (Some token, s') =>
        TokenStream.peekRemainder s
        = (Token.value token ++ TokenStream.peekRemainder s')%string
    | (None, s') =>
        TokenStream.peekRemainder s = "" /\
        TokenStream.peekRemainder s' = ""
    end.
Proof.
  intros [tokens position stack].
  unfold TokenStream.consume, TokenStream.peekRemainder.
  cbn [TokenStream.tokens TokenStream.position TokenStream.positionStack].
  destruct (nth_error tokens position) as [token|] eqn:P.
  - destruct (skipn position tokens) as [|x rest] eqn:S.
    + apply skipn_nil_nth_error in S. congruence.
    + apply skipn_cons_nth_error in S. destruct S as [Hx Hrest].
      rewrite Hrest. cbn [List.map]. rewrite join_empty_cons. congruence.
  - apply nth_error_None in P.
    rewrite !skipn_all2 by lia. now split.
Qed.

(** Tokenizing and reading the remainder of the fresh stream gives the input
    back: when at least one rule is registered and [tokenize] returns, the
    values of its tokens, joined, are the input. *)
Theorem tokenize_then_peekRemainder_is_the_input :
  forall this input tokens,
    Tokenizer.tokenTypeMatchers this <> [] ->
    Tokenizer.tokenize this input = inr tokens ->
    TokenStream.peekRemainder (TokenStream.new tokens) = input.
Proof.
  intros this input tokens Hne H.
  destruct (Tokenizer.tokenTypeMatchers this) as [|[matcher type] rest] eqn:E;
    [now destruct Hne|].
  unfold Tokenizer.tokenize in H.
  rewrite (reduce_first_rule this matcher type rest E) in H.
  destruct (find _ _); [discriminate|]. injection H as <-.
  unfold TokenStream.peekRemainder. cbn.
  rewrite values_of_tokens_at, join_chars.
  apply string_of_list_ascii_of_string.
Qed.

Lemma tokenize_then_peekRemainder_is_the_input_witness :
  TokenStream.peekRemainder
    (TokenStream.new [tok "a" "letter" 1 2; tok "b" "letter" 1 3])
  = "ab".
Proof.
  apply (tokenize_then_peekRemainder_is_the_input letter_digit "ab");
    [discriminate|reflexivity].
Defined.

(** ** The tokenizer with an array of rules *)

Lemma for_matchers_first_match :
  forall this entries char position tokens,
    ArrayTokenizer.for_matchers this entries char false position tokens
    = match first_match entries char with
      | Some type =>
          (true, position,
           tokens ++ [Token.mk (str_of_char char) type position])
      | None => (false, position, tokens)
      end.
Proof.
  intros this entries char position tokens.
  induction entries as [|[matcher type] entries IH]; [reflexivity|].
  cbn [ArrayTokenizer.for_matchers first_match].
  destruct matcher as [s|r]; cbn [ArrayTokenizer.string_matches
                                   ArrayTokenizer.regexp_matches accepts].
  - destruct (String.eqb (str_of_char char) s); [reflexivity|].
    cbn [andb]. exact IH.
  - destruct (test r char); [reflexivity|]. cbn [andb]. exact IH.
Qed.

Lemma array_reduce_first_match :
  forall this chars position tokens,
    ArrayTokenizer.reduce this chars position tokens
    = match find (unmatched (ArrayTokenizer.tokenTypeMatchers this))
                 chars with
      | Some char => inl (no_match char)
      | None =>
          inr (tokens
                 ++ tokens_at
                      (type_of_char (ArrayTokenizer.tokenTypeMatchers this))
                      (TokenPosition.line position)
                      (TokenPosition.column position + 1) chars)
      end.
Proof.
  intros this. induction chars as [|char chars IH]; intros position tokens.
  - cbn. now rewrite app_nil_r.
  - cbn [ArrayTokenizer.reduce find tokens_at].
    rewrite for_matchers_first_match. unfold unmatched at 1.
    destruct (first_match (ArrayTokenizer.tokenTypeMatchers this) char)
      as [type|] eqn:F; cbn [negb]; [|reflexivity].
    rewrite IH. cbn [TokenPosition.line TokenPosition.column].
    destruct (find _ chars); [reflexivity|].
    rewrite <- app_assoc. cbn [app]. unfold tok, type_of_char at 2.
    now rewrite F.
Qed.

(** With the rules in an array, first match wins: [tokenize] throws for the
    first character that no rule accepts, and otherwise returns one token
    per character, in order, typed by the first registered rule that accepts
    the character, in columns 1, 2, ...  The line is 1 for every token,
    whatever [newLineTokenType] is: the statement that increments it is only
    reached while [matched] is still false. *)
Theorem array_tokenize_first_match_wins :
  forall this input,
    ArrayTokenizer.tokenize this input
    = match find (unmatched (ArrayTokenizer.tokenTypeMatchers this))
                 (list_ascii_of_string input) with
      | Some char => inl (no_match char)
      | None =>
          inr (tokens_at
                 (type_of_char (ArrayTokenizer.tokenTypeMatchers this))
                 1 1 (list_ascii_of_string input))
      end.
Proof.
  intros this input. unfold ArrayTokenizer.tokenize.
  now rewrite array_reduce_first_match.
Qed.

Example array_tokenize_ab12 :
  ArrayTokenizer.tokenize
    (ArrayTokenizer.withTokenType "digit" (MRegExp DigitRegex)
       (ArrayTokenizer.withTokenType "letter" (MRegExp LetterRegex)
          ArrayTokenizer.new))
    "ab12"
  = inr [tok "a" "letter" 1 1; tok "b" "letter" 1 2;
         tok "1" "digit" 1 3; tok "2" "digit" 1 4].
Proof. reflexivity. Qed.

Example array_tokenize_newlines :
  ArrayTokenizer.tokenize
    (ArrayTokenizer.withTokenType "newline" (MRegExp NewLineRegex)
       (ArrayTokenizer.withTokenType "letter" (MRegExp LetterRegex)
          (ArrayTokenizer.mk [] (Some "newline"))))
    ("a" ++ newline ++ "b")
  = inr [tok "a" "letter" 1 1; tok newline "newline" 1 2;
         tok "b" "letter" 1 3].
Proof. reflexivity. Qed.

Lemma first_match_app :
  forall entries matcher type char,
    first_match (entries ++ [(matcher, type)]) char
    = match first_match entries char with
      | Some t => Some t
      | None => if accepts matcher char then Some type else None
      end.
Proof.
  induction entries as [|[m t] entries IH]; intros matcher type char.
  - reflexivity.
  - cbn [app first_match]. destruct (accepts m char); [reflexivity|apply IH].
Qed.

Lemma tokens_at_ext :
  forall (f g : ascii -> TokenType) line chars column,
    (forall char, In char chars -> f char = g char) ->
    tokens_at f line column chars = tokens_at g line column chars.
Proof.
  intros f g line. induction chars as [|char chars IH]; intros column H;
    [reflexivity|].
  cbn [tokens_at]. rewrite (H char) by now left.
  rewrite IH; [reflexivity|]. intros c Hc. apply H. now right.
Qed.

(** With the rules in an array, registering one more rule never changes
    what [tokenize] returns for an input it already tokenized: the new
    rule is tried last, so it only gives a type to characters that no
    earlier rule accepts. *)
Theorem array_withTokenType_keeps_earlier_results :
  forall this type matcher input tokens,
    ArrayTokenizer.tokenize this input = inr tokens ->
    ArrayTokenizer.tokenize (ArrayTokenizer.withTokenType type matcher this)
                            input
    = inr tokens.
Proof.
  intros this type matcher input tokens H.
  rewrite array_tokenize_first_match_wins in *.
  cbn [ArrayTokenizer.withTokenType ArrayTokenizer.tokenTypeMatchers].
  set (entries := ArrayTokenizer.tokenTypeMatchers this) in *.
  set (chars := list_ascii_of_string input) in *.
  destruct (find (unmatched entries) chars) as [char|] eqn:F;
    [discriminate|].
  injection H as <-.
  assert (Hall : forall char, In char chars ->
                   exists t, first_match entries char = Some t).
  { intros char Hin. apply (find_none _ _ F) in Hin. unfold unmatched in Hin.
    destruct (first_match entries char) as [t|]; [now exists t|discriminate]. }
  destruct (find (unmatched (entries ++ [(matcher, type)])) chars)
    as [char|] eqn:F'.
  - apply find_some in F'. destruct F' as [Hin Hnone].
    destruct (Hall char Hin) as (t & Ht). unfold unmatched in Hnone.
    rewrite first_match_app, Ht in Hnone. discriminate.
  - f_equal. apply tokens_at_ext. intros char Hin.
    destruct (Hall char Hin) as (t & Ht).
    unfold type_of_char. now rewrite first_match_app, Ht.
Qed.

Lemma array_withTokenType_keeps_earlier_results_witness :
  let letters :=
    ArrayTokenizer.withTokenType "letter" (MRegExp LetterRegex)
                                 ArrayTokenizer.new in
  ArrayTokenizer.tokenize
    (ArrayTokenizer.withTokenType "vowel" (MString "a") letters) "ab"
  = inr [tok "a" "letter" 1 1; tok "b" "letter" 1 2].
Proof.
  intros letters.
  exact (array_withTokenType_keeps_earlier_results
           letters "vowel" (MString "a") "ab" _ eq_refl).
Defined.

(** ** The primitive matchers, case by case *)

(** [getPositionForError] throws exactly when the token array is empty.
    Otherwise it reports the cursor as [position], with the line and column
    of the token under the cursor or, when the cursor is at or past the end,
    of the last token. *)
Theorem getPositionForError_throws_only_without_tokens :
  forall s,
    (TokenStream.tokens s = [] ->
     TokenStream.getPositionForError s
     = inl (TypeError
              "Cannot read properties of undefined (reading 'position')")) /\
    (TokenStream.tokens s <> [] ->
     exists token,
       (TokenStream.peek s = Some token \/
        (TokenStream.peek s = None /\
         exists front, TokenStream.tokens s = front ++ [token])) /\
       TokenStream.getPositionForError s
       = inr (ParserErrorPosition.mk
                (TokenPosition.line (Token.position token))
                (TokenPosition.column (Token.position token))
                (TokenStream.position s))).
Proof.
  intros [tokens position stack].
  unfold TokenStream.getPositionForError, TokenStream.peek.
  cbn [TokenStream.tokens TokenStream.position]. split.
  - intros ->. now destruct position.
  - intros Hne. destruct (nth_error tokens position) as [token|] eqn:P.
    + exists token. split; [now left|reflexivity].
    + destruct (exists_last Hne) as (front & x & ->).
      rewrite length_app. cbn [List.length].
      replace (List.length front + 1 - 1) with (List.length front) by lia.
      rewrite nth_error_app2 by lia. rewrite Nat.sub_diag. cbn [nth_error].
      exists x. split; [|reflexivity]. right. split; [reflexivity|].
      now exists front.
Qed.

Lemma getPositionForError_throws_only_without_tokens_witness :
  let a := tok "a" "letter" 3 7 in
  TokenStream.getPositionForError (TokenStream.mk [] 4 [1])
  = inl (TypeError "Cannot read properties of undefined (reading 'position')")
  /\
  exists token,
    (TokenStream.peek (TokenStream.mk [a] 5 []) = Some token \/
     (TokenStream.peek (TokenStream.mk [a] 5 []) = None /\
      exists front, [a] = front ++ [token])) /\
    TokenStream.getPositionForError (TokenStream.mk [a] 5 [])
    = inr (ParserErrorPosition.mk
             (TokenPosition.line (Token.position token))
             (TokenPosition.column (Token.position token)) 5).
Proof.
  intros a. split.
  - exact (proj1 (getPositionForError_throws_only_without_tokens
                    (TokenStream.mk [] 4 [1])) eq_refl).
  - apply (proj2 (getPositionForError_throws_only_without_tokens
                    (TokenStream.mk [a] 5 []))).
    discriminate.
Defined.

Lemma anyExcept_at_token :
  forall types s token,
    TokenStream.peek s = Some token ->
    if includes types (Token.type token)
    then exists position,
        TokenStream.getPositionForError (snd (TokenStream.consume s))
        = inr position /\
        anyExcept types s
        = Ret (Failed ("Expected any token not of type " ++ join ", " types
                         ++ ", but got " ++ type_or_end (Some token))%string
                      position)
              (snd (TokenStream.consume s))
    else anyExcept types s
         = Ret (Successful token) (snd (TokenStream.consume s)).
Proof.
  intros types [tokens position stack] token P.
  unfold TokenStream.peek in P; cbn in P.
  unfold anyExcept, TokenStream.consume;
    cbn [TokenStream.tokens TokenStream.position TokenStream.positionStack snd].
  rewrite P.
  destruct (includes types (Token.type token)); [|reflexivity].
  unfold failed_here.
  destruct (getPositionForError_nonempty
              (TokenStream.mk tokens (position + 1) stack)) as (e & He & _).
  - cbn. intros E. rewrite E in P. now destruct position.
  - exists e. rewrite He. now split.
Qed.

(** With a token under the cursor, [anyOf(types)] and [anyExcept(types)]
    split the cases between them: exactly one of the two succeeds, with that
    token as its value, and the other fails; both leave the stream as
    [consume] leaves it. *)
Theorem anyOf_and_anyExcept_are_complementary :
  forall types s token,
    TokenStream.peek s = Some token ->
    (anyOf types s = Ret (Successful token) (snd (TokenStream.consume s)) /\
     exists errorMessage position,
       anyExcept types s
       = Ret (Failed errorMessage position) (snd (TokenStream.consume s))) \/
    (anyExcept types s = Ret (Successful token) (snd (TokenStream.consume s)) /\
     exists errorMessage position,
       anyOf types s
       = Ret (Failed errorMessage position) (snd (TokenStream.consume s))).
Proof.
  intros types s token P.
  pose proof (anyOf_at_token types s token P) as Hof.
  pose proof (anyExcept_at_token types s token P) as Hexcept.
  destruct (includes types (Token.type token)).
  - left. split; [exact Hof|].
    destruct Hexcept as (position & _ & H). eexists _, position. exact H.
  - right. split; [exact Hexcept|].
    destruct Hof as (position & _ & _ & H). eexists _, position. exact H.
Qed.

Lemma anyOf_and_anyExcept_are_complementary_witness :
  let a := tok "a" "letter" 1 1 in
  let s := TokenStream.new [a] in
  (anyOf ["digit"] s = Ret (Successful a) (snd (TokenStream.consume s)) /\
   exists errorMessage position,
     anyExcept ["digit"] s
     = Ret (Failed errorMessage position) (snd (TokenStream.consume s))) \/
  (anyExcept ["digit"] s = Ret (Successful a) (snd (TokenStream.consume s)) /\
   exists errorMessage position,
     anyOf ["digit"] s
     = Ret (Failed errorMessage position) (snd (TokenStream.consume s))).
Proof.
  intros a s.
  exact (anyOf_and_anyExcept_are_complementary ["digit"] s a eq_refl).
Defined.

(** At the end of the input both [anyOf] and [anyExcept] fail, whatever the
    types: over a non-empty token array they return a failure that says
    [but got end of input], carries the line and column of the last token
    and the cursor after the attempt as position; over the empty token
    array they throw a [TypeError] instead of returning. *)
Theorem matchers_at_the_end_of_the_input :
  forall types s,
    TokenStream.peek s = None ->
    let s' := snd (TokenStream.consume s) in
    (forall front final,
        TokenStream.tokens s = front ++ [final] ->
        let position :=
          ParserErrorPosition.mk
            (TokenPosition.line (Token.position final))
            (TokenPosition.column (Token.position final))
            (TokenStream.position s + 1) in
        anyOf types s
        = Ret (Failed ("Expected token of type " ++ join ", " types
                         ++ ", but got end of input")%string position) s' /\
        anyExcept types s
        = Ret (Failed ("Expected any token not of type " ++ join ", " types
                         ++ ", but got end of input")%string position) s') /\
    (TokenStream.tokens s = [] ->
     anyOf types s
     = Throw (TypeError
                "Cannot read properties of undefined (reading 'position')") s'
     /\
     anyExcept types s
     = Throw (TypeError
                "Cannot read properties of undefined (reading 'position')") s').
Proof.
  intros types [tokens position stack] P s'. subst s'.
  unfold TokenStream.peek in P. cbn in P.
  unfold anyOf, anyExcept, failed_here, TokenStream.consume.
  cbn [TokenStream.tokens TokenStream.position TokenStream.positionStack snd].
  rewrite P. cbn [type_or_end]. split.
  - intros front final ->.
    assert (Hlen : List.length (front ++ [final]) <= position)
      by now apply nth_error_None.
    unfold TokenStream.getPositionForError, TokenStream.peek.
    cbn [TokenStream.tokens TokenStream.position].
    replace (nth_error (front ++ [final]) (position + 1)) with (@None Token.t)
      by (symmetry; apply nth_error_None; lia).
    rewrite length_app in *. cbn [List.length] in *.
    replace (List.length front + 1 - 1) with (List.length front) by lia.
    rewrite nth_error_app2 by lia. rewrite Nat.sub_diag. cbn [nth_error].
    now split.
  - intros ->. unfold TokenStream.getPositionForError, TokenStream.peek.
    cbn [TokenStream.tokens TokenStream.position List.length].
    replace (nth_error (@nil Token.t) (position + 1)) with (@None Token.t)
      by now destruct (position + 1).
    now split.
Qed.

Lemma matchers_at_the_end_of_the_input_witness :
  let a := tok "a" "letter" 2 5 in
  anyOf ["digit"; "dot"] (TokenStream.mk [a] 1 [])
  = Ret (Failed "Expected token of type digit, dot, but got end of input"
                (ParserErrorPosition.mk 2 5 2))
        (TokenStream.mk [a] 2 []) /\
  anyExcept ["x"] (TokenStream.new [])
  = Throw (TypeError "Cannot read properties of undefined (reading 'position')")
          (TokenStream.mk [] 1 []).
Proof.
  intros a. split.
  - exact (proj1 (proj1 (matchers_at_the_end_of_the_input
                           ["digit"; "dot"] (TokenStream.mk [a] 1 []) eq_refl)
                        [] a eq_refl)).
  - exact (proj2 (proj2 (matchers_at_the_end_of_the_input
                           ["x"] (TokenStream.new []) eq_refl) eq_refl)).
Defined.

(** [endOfInput()] succeeds exactly when no token is under the cursor or
    the token under it has the type [end_of_input]; on any other token it
    fails, naming that token's type.  In every case the cursor has moved by
    one. *)
Theorem endOfInput_accepts_the_end_and_the_end_marker :
  forall s,
    let s' := snd (TokenStream.consume s) in
    match TokenStream.peek s with
    | None => endOfInput s = Ret (Successful tt) s'
    | Some token =>
        if String.eqb (Token.type token) "end_of_input"
        then endOfInput s = Ret (Successful tt) s'
        else exists position,
            ParserErrorPosition.position position
            = TokenStream.position s + 1 /\
            endOfInput s
            = Ret (Failed ("Expected end of input, but got token of type "
                             ++ Token.type token)%string position) s'
    end.
Proof.
  intros [tokens position stack] s'. subst s'.
  unfold TokenStream.peek, endOfInput, TokenStream.consume.
  cbn [TokenStream.tokens TokenStream.position TokenStream.positionStack snd].
  destruct (nth_error tokens position) as [token|] eqn:P; [|reflexivity].
  unfold end_of_input.
  destruct (String.eqb (Token.type token) "end_of_input"); cbn [negb];
    [reflexivity|].
  unfold failed_here.
  destruct (getPositionForError_nonempty
              (TokenStream.mk tokens (position + 1) stack)) as (e & He & Hp).
  - cbn. intros E. rewrite E in P. now destruct position.
  - exists e. rewrite He. now split.
Qed.

(** ** [optional] and the runner *)

(** [optional] never reports a failure: whatever it returns is a success.
    With backtracking, a token that [anyOf] rejects is still under the cursor
    afterwards; without, the rejected token has been consumed and is lost to
    the parsers that follow. *)
Theorem optional_always_succeeds_and_backtracks_only_on_request :
  (forall (T : Type) (p : ParseFn T) shouldBacktrack s r s',
      Combinators.optional p shouldBacktrack s = Ret r s' ->
      exists v, r = Successful v) /\
  (forall types s token,
      TokenStream.peek s = Some token ->
      includes types (Token.type token) = false ->
      Combinators.optional (anyOf types) true s = Ret (Successful None) s /\
      Combinators.optional (anyOf types) false s
      = Ret (Successful None) (snd (TokenStream.consume s))).
Proof.
  split.
  - intros T p shouldBacktrack s r s'. unfold Combinators.optional.
    destruct ((if shouldBacktrack then Combinators.attempt p else p) s)
      as [r1 s1| |]; cbn [bind]; [|discriminate|discriminate].
    destruct r1; [| |discriminate]; intros H; injection H as <- _;
      now eexists.
  - intros types s token P Hin.
    pose proof (anyOf_at_token types s token P) as H. rewrite Hin in H.
    destruct H as (position & _ & _ & H). split.
    + destruct s as [tokens cursor stack]. rewrite optional_anyOf_run.
      unfold TokenStream.peek in P. cbn in P. rewrite P, Hin.
      destruct (getPositionForError_nonempty
                  (TokenStream.mk tokens (cursor + 1) stack)) as (e & -> & _);
        [|reflexivity].
      cbn. intros E. rewrite E in P. now destruct cursor.
    + unfold Combinators.optional. now rewrite H.
Qed.

Lemma optional_always_succeeds_and_backtracks_only_on_request_witness :
  let a := tok "a" "letter" 1 1 in
  let s := TokenStream.new [a] in
  (exists v, Successful (@None Token.t) = Successful v) /\
  Combinators.optional (anyOf ["digit"]) true s = Ret (Successful None) s /\
  Combinators.optional (anyOf ["digit"]) false s
  = Ret (Successful None) (TokenStream.mk [a] 1 []).
Proof.
  intros a s. split.
  - exact (proj1 optional_always_succeeds_and_backtracks_only_on_request
                 Token.t (anyOf ["digit"]) true s _ s eq_refl).
  - exact (proj2 optional_always_succeeds_and_backtracks_only_on_request
                 ["digit"] s a eq_refl eq_refl).
Defined.

(** [runParser] never hands a failure back: whatever it returns is the
    success the parser returned, on the stream the parser left.  A parser
    that returns [null] (as [or] without alternatives does) makes it throw
    a [TypeError], not a [ParserError]; what the parser throws, it throws. *)
Theorem runParser_returns_only_successes :
  forall (T : Type) (parser : ParseFn T) s,
    (forall r s',
        runParser parser s = Ret r s' ->
        exists v, r = Successful v /\ parser s = Ret (Successful v) s') /\
    (forall s',
        parser s = Ret Null s' ->
        runParser parser s
        = Throw (TypeError
                   "Cannot read properties of null (reading 'errorMessage')")
                s') /\
    (forall e s', parser s = Throw e s' -> runParser parser s = Throw e s').
Proof.
  intros T parser s. unfold runParser. repeat split.
  - intros r s'. destruct (parser s) as [r1 s1| |]; cbn [bind];
      [|discriminate|discriminate].
    destruct r1 as [v| |]; [|discriminate|discriminate].
    intros H. injection H as <- <-. now exists v.
  - intros s' H. now rewrite H.
  - intros e s' H. now rewrite H.
Qed.

Lemma runParser_returns_only_successes_witness :
  let a := tok "a" "letter" 1 1 in
  let s := TokenStream.new [a] in
  (exists v,
      Successful a = Successful v /\
      anyOf ["letter"] s = Ret (Successful v) (TokenStream.mk [a] 1 [])) /\
  runParser (@Combinators.or Token.t []) s
  = Throw (TypeError "Cannot read properties of null (reading 'errorMessage')")
          s /\
  runParser (anyOf ["letter"]) (TokenStream.new [])
  = Throw (TypeError "Cannot read properties of undefined (reading 'position')")
          (TokenStream.mk [] 1 []).
Proof.
  intros a s. split; [|split].
  - exact (proj1 (runParser_returns_only_successes Token.t (anyOf ["letter"]) s)
                 _ _ eq_refl).
  - exact (proj1 (proj2 (runParser_returns_only_successes
                           Token.t (Combinators.or []) s))
                 s eq_refl).
  - exact (proj2 (proj2 (runParser_returns_only_successes
                           Token.t (anyOf ["letter"]) (TokenStream.new [])))
                 _ _ eq_refl).
Defined.

(** When [tokenize] returns no token at all (the input is the empty
    string, or no rule is registered), [runParserOnString] runs the parser
    on the empty token array: a parser that starts with [anyOf] or
    [anyExcept] then throws a [TypeError] instead of a [ParserError], and
    [endOfInput()] succeeds. *)
Theorem runParserOnString_without_tokens :
  forall tokenizer input types,
    Tokenizer.tokenize tokenizer input = inr [] ->
    runParserOnString (anyOf types) input tokenizer
    = inr (Throw (TypeError
                    "Cannot read properties of undefined (reading 'position')")
                 (TokenStream.mk [] 1 [])) /\
    runParserOnString (anyExcept types) input tokenizer
    = inr (Throw (TypeError
                    "Cannot read properties of undefined (reading 'position')")
                 (TokenStream.mk [] 1 [])) /\
    runParserOnString endOfInput input tokenizer
    = inr (Ret (Successful tt) (TokenStream.mk [] 1 [])).
Proof.
  intros tokenizer input types H. unfold runParserOnString. rewrite H.
  repeat split.
Qed.

Lemma runParserOnString_without_tokens_witness :
  runParserOnString (anyOf ["letter"]) "" letter_digit
  = inr (Throw (TypeError
                  "Cannot read properties of undefined (reading 'position')")
               (TokenStream.mk [] 1 [])) /\
  runParserOnString endOfInput "ab" Tokenizer.new
  = inr (Ret (Successful tt) (TokenStream.mk [] 1 [])).
Proof.
  split.
  - exact (proj1 (runParserOnString_without_tokens
                    letter_digit "" ["letter"] eq_refl)).
  - exact (proj2 (proj2 (runParserOnString_without_tokens
                           Tokenizer.new "ab" [] eq_refl))).
Defined.

(** ** [unwrapResult] *)

Lemma unwrapElement_Arr :
  forall (T : Type) (items : list (Nested T)),
    unwrapElement (Arr items) = unwrapResult items.
Proof.
  intros T items. cbn [unwrapElement].
  induction items as [|element rest IH]; [reflexivity|].
  cbn [unwrapResult]. now rewrite IH.
Qed.

Lemma unwrapResult_app :
  forall (T : Type) (xs ys : list (Nested T)),
    unwrapResult (xs ++ ys) = unwrapResult xs ++ unwrapResult ys.
Proof.
  intros T xs ys. induction xs as [|x xs IH]; [reflexivity|].
  cbn [app unwrapResult]. now rewrite IH, app_assoc.
Qed.

Lemma unwrapResult_items :
  forall (T : Type) (l : list T), unwrapResult (List.map (@Item T) l) = l.
Proof.
  intros T l. induction l as [|x l IH]; [reflexivity|].
  cbn [List.map unwrapResult unwrapElement app]. now rewrite IH.
Qed.

(** [unwrapResult] flattens every level of nesting and keeps the order.  An
    array without nested arrays comes back as it is; a nested array
    contributes its own flattening in place; the result of a concatenation
    is the concatenation of the results; and flattening what is already
    flat changes nothing. *)
Theorem unwrapResult_flattens_in_order :
  forall (T : Type),
    (forall l : list T, unwrapResult (List.map (@Item T) l) = l) /\
    (forall (items rest : list (Nested T)),
        unwrapResult (Arr items :: rest)
        = unwrapResult items ++ unwrapResult rest) /\
    (forall xs ys : list (Nested T),
        unwrapResult (xs ++ ys) = unwrapResult xs ++ unwrapResult ys) /\
    (forall xs : list (Nested T),
        unwrapResult (List.map (@Item T) (unwrapResult xs)) = unwrapResult xs).
Proof.
  intros T. split; [|split; [|split]].
  - apply unwrapResult_items.
  - intros items rest. cbn [unwrapResult]. now rewrite unwrapElement_Arr.
  - apply unwrapResult_app.
  - intros xs. apply unwrapResult_items.
Qed.

Example unwrapResult_nested :
  unwrapResult [Item 1; Arr [Item 2; Arr [Item 3; Arr []]; Item 4]; Arr [];
                Item 5]
  = [1; 2; 3; 4; 5].
Proof. reflexivity. Qed.

(** ** [many] before the progress check *)




(** ** Saving and restoring the cursor *)

Lemma apply_cursor_op_stack :
  forall op tokens position stack,
    is_cursor_op op = true ->
    apply_op op (TokenStream.mk tokens position stack)
    = TokenStream.mk tokens
        (TokenStream.position
           (apply_op op (TokenStream.mk tokens position [])))
        stack.
Proof.
  intros [| |types| | |] tokens position stack H; try discriminate H;
    try reflexivity.
  cbn [apply_op]. unfold TokenStream.consumeIf, TokenStream.peek.
  cbn [TokenStream.tokens TokenStream.position].
  destruct (nth_error tokens position) as [token|]; [|reflexivity].
  now destruct (includes types (Token.type token)).
Qed.

Lemma apply_cursor_ops_stack :
  forall ops tokens position stack,
    forallb is_cursor_op ops = true ->
    apply_ops ops (TokenStream.mk tokens position stack)
    = TokenStream.mk tokens
        (TokenStream.position
           (apply_ops ops (TokenStream.mk tokens position [])))
        stack.
Proof.
  unfold apply_ops.
  induction ops as [|op ops IH]; intros tokens position stack H;
    [reflexivity|].
  cbn [forallb] in H. apply andb_true_iff in H. destruct H as [Hop Hops].
  cbn [fold_left].
  rewrite (apply_cursor_op_stack op tokens position stack Hop).
  rewrite (apply_cursor_op_stack op tokens position [] Hop).
  rewrite IH by assumption. now rewrite (IH _ _ [] Hops).
Qed.

(** Whatever is peeked at and consumed between them, [storePosition]
    followed by [restorePosition] puts the stream back exactly as it was,
    and [storePosition] followed by [clearPosition] leaves it as if nothing
    had been stored. *)
Theorem store_then_restore_or_clear :
  forall ops s,
    forallb is_cursor_op ops = true ->
    TokenStream.restorePosition (apply_ops ops (TokenStream.storePosition s))
    = s /\
    TokenStream.clearPosition (apply_ops ops (TokenStream.storePosition s))
    = apply_ops ops s.
Proof.
  intros ops [tokens position stack] H.
  unfold TokenStream.storePosition.
  cbn [TokenStream.tokens TokenStream.position TokenStream.positionStack].
  rewrite (apply_cursor_ops_stack ops tokens position (position :: stack) H).
  rewrite (apply_cursor_ops_stack ops tokens position stack H).
  now split.
Qed.

Lemma store_then_restore_or_clear_witness :
  let a := tok "a" "letter" 1 1 in
  let b := tok "b" "letter" 1 2 in
  let s := TokenStream.mk [a; b] 0 [7] in
  let ops := [OpConsume; OpPeek; OpConsumeIf ["letter"]; OpConsume] in
  TokenStream.restorePosition (apply_ops ops (TokenStream.storePosition s)) = s
  /\
  TokenStream.clearPosition (apply_ops ops (TokenStream.storePosition s))
  = TokenStream.mk [a; b] 3 [7].
Proof.
  intros a b s ops.
  exact (store_then_restore_or_clear ops s eq_refl).
Defined.

(** ** One or more *)

Lemma many_loop_success_is_not_empty :
  forall (T : Type) (p : ParseFn T),
    (forall s v s1,
        p s = Ret (Successful v) s1 ->
        TokenStream.position s1 <> TokenStream.position s) ->
    forall fuel results s vs s',
      Combinators.many_loop fuel p results s = Ret (Successful vs) s' ->
      vs <> [].
Proof.
  intros T p Hmoves.
  induction fuel as [|fuel IH]; intros results s vs s' H; [discriminate|].
  cbn [Combinators.many_loop] in H.
  destruct (p (TokenStream.storePosition s)) as [r s1| |] eqn:E;
    cbn [bind] in H; [|discriminate|discriminate].
  destruct r as [v|errorMessage position|]; [| |discriminate].
  - apply Hmoves in E. cbn in E. apply Nat.eqb_neq in E. rewrite E in H.
    now apply IH in H.
  - destruct results as [|x results]; cbn in H; [discriminate|].
    injection H as <- _. discriminate.
Qed.

(** For a parser that never succeeds without moving the cursor, as the
    primitive matchers do, [many] is one-or-more: a success of [many(p)]
    never carries the empty list. *)
Theorem many_of_a_consuming_parser_is_one_or_more :
  forall (T : Type) (p : ParseFn T),
    (forall s v s1,
        p s = Ret (Successful v) s1 ->
        TokenStream.position s1 <> TokenStream.position s) ->
    forall fuel s vs s',
      Combinators.many fuel p s = Ret (Successful vs) s' ->
      vs <> [].
Proof.
  intros T p Hmoves fuel s vs s' H. unfold Combinators.many in H.
  now apply (many_loop_success_is_not_empty T p Hmoves) in H.
Qed.

Lemma many_of_a_consuming_parser_is_one_or_more_witness :
  let one := tok "1" "digit" 1 1 in
  [one] <> [].
Proof.
  intros one.
  apply (many_of_a_consuming_parser_is_one_or_more
           Token.t (anyExcept ["letter"])) with 2 (TokenStream.new [one])
           (TokenStream.mk [one] 1 []).
  - intros s v s1 H. pose proof (anyExcept_stream ["letter"] s _ _ H) as Hs.
    subst s1. cbn. lia.
  - reflexivity.
Defined.

(** ** [map] and [label] *)


